(** * A model of [app.py]: the transactions service

    [app.py] is a Flask application over one SQLite table.  It seeds the
    table once from a remote JSON feed ([seed_data], [setup]) and serves
    five read-only endpoints: [get_transactions], [get_statistics],
    [get_bar_chart], [get_pie_chart] and [get_combined_data].

    The embedding follows the source function by function.

    - The table is the list of its rows in rowid order, the order in
      which SQLite scans a table that has no index on the filtered
      columns.  Every column of a row holds a value: rows are only ever
      written by [seed_data], which fills each column from the feed.
    - A [str] is the list of the bytes of its UTF-8 encoding, which is
      what the database driver hands to SQLite.
    - [price] is a [db.Float] column.  A stored price is a finite
      [double]; it is modelled as the rational ([Q]) that it denotes, so
      that comparisons with the bucket bounds are exact.  Arithmetic on
      prices is that of the engine: [SUM] adds in double precision, one
      row after the other, and rounds every partial sum; the text of a
      price under LIKE is computed in extended precision.
    - [request.args] is the association list of the query-string
      parameters, in order.
    - A view function either returns a response, returns a pair of a
      response and a status code, or raises.  An exception that leaves a
      view function is answered by Flask with status 500.
    - Python integers are unbounded ([Z]); the database driver accepts
      64-bit integers only.
    - The library calls are modelled after the versions the source is
      written for: [paginate] with positional arguments and
      [before_first_request] are those of Flask-SQLAlchemy 2.x and
      Flask before 2.3; [int] is that of CPython 3.11, with its digit
      limit and the decimal digits of Unicode 14; the engine is SQLite
      3.40 on x86-64, whose [long double] has 64 significant bits. *)

From Stdlib Require Import ZArith QArith Qpower Qabs Qround Lqa.
From Stdlib Require Import List String Ascii Bool Lia.
From Stdlib Require Import DecimalString.
From Stdlib Require OrderedTypeEx.
Import ListNotations.

Open Scope string_scope.
Open Scope Z_scope.

(** ** Python-level values *)

Module Py.

(** Exceptions that the modelled code can raise. *)
Inductive exn : Type :=
| ValueError              (* int(), strptime(), dateutil's ParserError *)
| AttributeError          (* attribute lookup on the wrong kind of value *)
| NotFound                (* werkzeug's abort(404) *)
| RequestException        (* requests.get / response.json failures *)
| OverflowError           (* an int too large for an SQLite INTEGER *)
| OperationalError.       (* an error of the engine while a query runs *)

(** The outcome of evaluating an expression: a value or a raised
    exception. *)
Inductive result (A : Type) : Type :=
| Ok (a : A)
| Raise (e : exn).
Arguments Ok {A} a.
Arguments Raise {A} e.

Definition bind {A B} (c : result A) (k : A -> result B) : result B :=
  match c with
  | Ok a => k a
  | Raise e => Raise e
  end.

(** Truthiness of [str]: the empty string is false. *)
Definition truthy (s : string) : bool :=
  match s with
  | EmptyString => false
  | String _ _ => true
  end.

(** Truthiness of an optional [str] ([None] is false). *)
Definition truthy_opt (o : option string) : bool :=
  match o with
  | None => false
  | Some s => truthy s
  end.

(** The string held by a variable that is a [str] or [None].  It is
    used only where the variable has been tested to be true, so the
    [None] branch never matters. *)
Definition the_str (o : option string) : string :=
  match o with
  | None => EmptyString
  | Some s => s
  end.

Definition is_digit (c : ascii) : bool :=
  let n := N_of_ascii c in (48 <=? n)%N && (n <=? 57)%N.

Definition digit_val (c : ascii) : Z := Z.of_N (N_of_ascii c) - 48.

(** The whitespace that [int] skips around a literal ([Py_ISSPACE]):
    TAB, LF, VT, FF, CR and the space. *)
Definition is_space (c : ascii) : bool :=
  let n := N_of_ascii c in
  ((9 <=? n)%N && (n <=? 13)%N) || (n =? 32)%N.

Fixpoint lstrip (s : list ascii) : list ascii :=
  match s with
  | c :: s' => if is_space c then lstrip s' else s
  | [] => []
  end.

Definition strip (s : list ascii) : list ascii :=
  rev (lstrip (rev (lstrip s))).

(** The digits of a decimal literal after its sign: one or more digits,
    single underscores allowed between digits.  [acc] is the value read
    so far, [prev_digit] tells whether the previous character was a
    digit. *)
Fixpoint int_digits (s : list ascii) (acc : Z) (prev_digit : bool)
  : option Z :=
  match s with
  | [] => if prev_digit then Some acc else None
  | c :: s' =>
      if is_digit c then int_digits s' (10 * acc + digit_val c) true
      else if (Ascii.eqb c "_" && prev_digit)%bool
           then match s' with
                | d :: _ => if is_digit d then int_digits s' acc false
                            else None
                | [] => None
                end
           else None
  end.

(** The code points of a [str], read from its UTF-8 encoding one byte
    at a time from the right: continuation bytes wait for their lead
    byte. *)
Definition decode_step (c : ascii) (st : list Z * list Z) : list Z * list Z :=
  let b := Z.of_N (N_of_ascii c) in
  let '(conts, chars) := st in
  if b <? 128 then ([], b :: chars)
  else if b <? 192 then (b - 128 :: conts, chars)
  else
    let lead := if b <? 224 then b - 192
                else if b <? 240 then b - 224
                else b - 240 in
    ([], fold_left (fun v x => 64 * v + x) conts lead :: chars).

Definition code_points (s : string) : list Z :=
  snd (fold_right decode_step ([], []) (list_ascii_of_string s)).

(** The whitespace characters from U+007F on ([Py_UNICODE_ISSPACE]). *)
Definition unicode_spaces : list Z :=
  [ 133; 160; 5760; 8192; 8193; 8194; 8195; 8196; 8197; 8198; 8199; 8200;
    8201; 8202; 8232; 8233; 8239; 8287; 12288 ].

(** The digits zero of the decimal digits from U+007F on (Unicode 14,
    the version of CPython 3.11); the digits one to nine follow each of
    them. *)
Definition decimal_zeros : list Z :=
  [ 1632; 1776; 1984; 2406; 2534; 2662; 2790; 2918;
    3046; 3174; 3302; 3430; 3558; 3664; 3792; 3872;
    4160; 4240; 6112; 6160; 6470; 6608; 6784; 6800;
    6992; 7088; 7232; 7248; 42528; 43216; 43264; 43472;
    43504; 43600; 44016; 65296; 66720; 68912; 69734; 69872;
    69942; 70096; 70384; 70736; 70864; 71248; 71360; 71472;
    71904; 72016; 72784; 73040; 73120; 92768; 92864; 93008;
    120782; 120792; 120802; 120812; 120822; 123200; 123632; 125264;
    130032 ].

(** [Py_UNICODE_TODECIMAL]. *)
Definition to_decimal (c : Z) : option Z :=
  option_map (fun zero => c - zero)
             (find (fun zero => (zero <=? c) && (c <=? zero + 9)) decimal_zeros).

(** [_PyUnicode_TransformDecimalAndSpaceToASCII]: what [int] parses.
    Characters below U+007F stay, a whitespace character becomes a
    space and a decimal digit its ASCII digit; the text is cut after
    the first other character, which becomes a question mark. *)
Fixpoint to_ascii_literal (chars : list Z) : list ascii :=
  match chars with
  | [] => []
  | c :: rest =>
      if c <? 127 then ascii_of_N (Z.to_N c) :: to_ascii_literal rest
      else if existsb (Z.eqb c) unicode_spaces
           then " "%char :: to_ascii_literal rest
      else match to_decimal c with
           | Some d => ascii_of_N (Z.to_N (48 + d)) :: to_ascii_literal rest
           | None => ["?"%char]
           end
  end.

(** [sys.get_int_max_str_digits()]: the longest decimal literal that
    [int] converts. *)
Definition int_max_str_digits : nat := 4300.

(** [int(s)] for a [str] argument, base 10.  A literal of more than
    [int_max_str_digits] digits (leading zeros count, underscores, the
    sign and the whitespace do not) raises [ValueError], like a
    malformed one. *)
Definition int (s : string) : result Z :=
  let body := strip (to_ascii_literal (code_points s)) in
  let '(neg, ds) :=
    match body with
    | c :: r => if Ascii.eqb c "-" then (true, r)
                else if Ascii.eqb c "+" then (false, r)
                else (false, body)
    | [] => (false, body)
    end in
  match int_digits ds 0 false with
  | Some n =>
      if (List.length (filter is_digit ds) <=? int_max_str_digits)%nat
      then Ok (if neg then - n else n)
      else Raise ValueError
  | None => Raise ValueError
  end.

(** [str.lower] on ASCII text. *)
Definition lower_ascii (c : ascii) : ascii :=
  let n := N_of_ascii c in
  if ((65 <=? n)%N && (n <=? 90)%N)%bool then ascii_of_N (n + 32) else c.

Fixpoint lower (s : string) : string :=
  match s with
  | EmptyString => EmptyString
  | String c s' => String (lower_ascii c) (lower s')
  end.

(** The month names of the C locale, lower-cased, as [_strptime] keeps
    them in [LocaleTime.f_month] (index 0 is the empty name). *)
Definition f_month : list string :=
  [ ""; "january"; "february"; "march"; "april"; "may"; "june"; "july";
    "august"; "september"; "october"; "november"; "december" ].

Fixpoint index_from (x : string) (l : list string) (i : Z) : option Z :=
  match l with
  | [] => None
  | y :: l' => if String.eqb x y then Some i else index_from x l' (i + 1)
  end.

(** [datetime.datetime.strptime(s, '%B').month].  The directive [%B]
    matches one full month name, case-insensitively, and the whole
    string has to be consumed; anything else raises [ValueError]. *)
Definition strptime_B_month (s : string) : result Z :=
  if truthy s then
    match index_from (lower s) f_month 0 with
    | Some i => Ok i
    | None => Raise ValueError
    end
  else Raise ValueError.

(** [str(n)] for an [int]. *)
Definition str_of_int (n : Z) : string :=
  NilZero.string_of_int (Z.to_int n).

End Py.

Import Py.

Notation "x <- c ;; k" := (Py.bind c (fun x => k))
  (at level 61, c at next level, right associativity).

(** ** JSON values, as [jsonify] serialises them *)

#[warnings="-register-all"]
Inductive json : Type :=
| JNull
| JInt (n : Z)
| JNum (x : Q)
| JInfinity (negative : bool)   (* [Infinity], [-Infinity]: what
                                   [json.dumps] writes for an infinite
                                   float *)
| JStr (s : string)
| JArr (items : list json)
| JObj (fields : list (string * json)).

(** Member lookup in a JSON object. *)
Fixpoint assoc_get {A} (k : string) (l : list (string * A)) : option A :=
  match l with
  | [] => None
  | (k', v) :: l' => if String.eqb k k' then Some v else assoc_get k l'
  end.

Definition json_get (k : string) (j : json) : option json :=
  match j with
  | JObj fields => assoc_get k fields
  | _ => None
  end.

(** ** The table *)

(** A [datetime.date]. *)
Record date : Type := mkDate { year : Z; month : Z; day : Z }.

(** The model class [Transaction]: one row of the table. *)
Record Transaction : Type := mkTransaction {
  id : Z;
  title : string;
  description : string;
  price : Q;
  category : string;
  dateOfSale : date
}.

(** Decimal text of [n], left-padded with zeros to [width] characters. *)
Definition zero_pad (width : nat) (n : Z) : string :=
  let s := str_of_int n in
  string_of_list_ascii (repeat "0"%char (width - String.length s)) ++ s.

(** [date.isoformat()]: YYYY-MM-DD. *)
Definition isoformat (d : date) : string :=
  zero_pad 4 (year d) ++ "-" ++ zero_pad 2 (month d) ++ "-" ++ zero_pad 2 (day d).

(** ** The query engine: what the SQL emitted by the ORM computes *)

Module Sql.

(** [extract('month', col)]: the month number of a date column. *)
Definition extract_month (d : date) : Z := month d.

(** The largest INTEGER of SQLite, 2^63 - 1. *)
Definition max_int64 : Z := 9223372036854775807.

(** An integer that fits an SQLite INTEGER. *)
Definition int64 (z : Z) : bool := (- max_int64 - 1 <=? z) && (z <=? max_int64).

(** *** Binary floating point *)

(** The position of the leading bit of [n/d]: the [e] with
    2^e <= n/d < 2^(e+1). *)
Definition ilog2 (n d : positive) : Z :=
  let e := Z.log2 (Z.pos n) - Z.log2 (Z.pos d) in
  let ge := if 0 <=? e then Z.pos d * 2 ^ e <=? Z.pos n
            else Z.pos d <=? Z.pos n * 2 ^ (- e) in
  if ge then e else e - 1.

(** [num/den] rounded to the nearest integer, ties to even. *)
Definition round_half_even (num den : Z) : Z :=
  let q := num / den in
  let r := num mod den in
  if den <? 2 * r then q + 1
  else if den =? 2 * r then q + q mod 2
  else q.

(** [m * 2^u]. *)
Definition scale2 (m u : Z) : Q :=
  if 0 <=? u then inject_Z (m * 2 ^ u) else m # Z.to_pos (2 ^ (- u)).

(** [x] rounded to the nearest binary floating-point number that has
    [prec] significant bits and no bit below 2^[emin], ties to even. *)
Definition round_float (prec emin : Z) (x : Q) : Q :=
  match Qnum x with
  | Z0 => 0
  | Zpos n | Zneg n =>
      let d := Qden x in
      let u := Z.max (ilog2 n d - (prec - 1)) emin in
      let m := if 0 <=? u
               then round_half_even (Z.pos n) (Z.pos d * 2 ^ u)
               else round_half_even (Z.pos n * 2 ^ (- u)) (Z.pos d) in
      Qred (scale2 (Z.sgn (Qnum x) * m) u)
  end.

(** A value of type [double] that is not a NaN: finite, or an
    infinity. *)
Inductive real : Type :=
| Finite (x : Q)
| Infinite (negative : bool).

(** The result of a [double] operation whose exact value is [x]:
    53 significant bits, the smallest bit 2^-1074, and an infinity from
    2^1024 on. *)
Definition round_double (x : Q) : real :=
  let y := round_float 53 (-1074) x in
  if Qle_bool (inject_Z (2 ^ 1024)) (Qabs y)
  then Infinite (Qnum y <? 0)
  else Finite y.

(** [a + x] in double precision, for a finite [x]. *)
Definition add_double (a : real) (x : Q) : real :=
  match a with
  | Finite a => round_double (a + x)
  | Infinite negative => Infinite negative
  end.

(** The result of a [long double] operation whose exact value is [x]:
    the extended precision of the x87 unit, 64 significant bits. *)
Definition long_double (x : Q) : Q := round_float 64 (-16445) x.

(** *** REAL to TEXT

    A REAL operand of LIKE is first rendered as text by the engine's
    own [printf], with the format ["%!.15g"]: fifteen significant
    digits, trailing zeros removed, always a decimal point.  The
    conversion computes in [long double]. *)

(** The [double] constants of the conversion: 1e100, 1e10, 1e8, 1e-8,
    0.1 and the rounding term 5.0e-05 * 1.0e-10. *)
Definition c_1e100 : Q := inject_Z (5147557589468029 * 2 ^ 280).
Definition c_1e10 : Q := inject_Z (10 ^ 10).
Definition c_1e8 : Q := inject_Z (10 ^ 8).
Definition c_1e_8 : Q := 3022314549036573 # Z.to_pos (2 ^ 78).
Definition c_0_1 : Q := 3602879701896397 # Z.to_pos (2 ^ 55).
Definition rounder : Q := 1584563250285287 # Z.to_pos (2 ^ 98).

(** [while( realvalue>=c*scale && exp<=350 ){ scale *= c; exp += step; }]
    The test on [exp] bounds the number of turns. *)
Fixpoint scale_up (turns : nat) (c : Q) (step : Z) (realvalue : Q)
         (st : Q * Z) : Q * Z :=
  match turns with
  | O => st
  | S turns' =>
      let '(scale, exp) := st in
      if Qle_bool (long_double (c * scale)) realvalue && (exp <=? 350)
      then scale_up turns' c step realvalue
                    (long_double (scale * c), exp + step)
      else st
  end.

(** [while( realvalue<bound ){ realvalue *= c; exp -= step; }] *)
Fixpoint scale_down (turns : nat) (bound c : Q) (step : Z) (st : Q * Z)
  : Q * Z :=
  match turns with
  | O => st
  | S turns' =>
      let '(realvalue, exp) := st in
      if negb (Qle_bool bound realvalue)
      then scale_down turns' bound c step
                      (long_double (realvalue * c), exp - step)
      else st
  end.

(** The decimal digit [d] as a character. *)
Definition digit_char (d : Z) : ascii := ascii_of_N (Z.to_N (d + 48)).

(** [et_getdigit]: the next digit of [val]; after [cnt] significant
    digits only zeros follow. *)
Definition et_getdigit (st : Q * Z) : ascii * (Q * Z) :=
  let '(val, cnt) := st in
  if cnt <=? 0 then ("0"%char, st)
  else
    let digit := Qfloor val in
    (digit_char digit,
     (long_double (long_double (val - inject_Z digit) * 10), cnt - 1)).

Fixpoint getdigits (n : nat) (st : Q * Z) : list ascii * (Q * Z) :=
  match n with
  | O => ([], st)
  | S n' =>
      let '(c, st) := et_getdigit st in
      let '(cs, st) := getdigits n' st in
      (c :: cs, st)
  end.

Fixpoint drop_zeros (rev_digits : list ascii) : list ascii :=
  match rev_digits with
  | c :: r => if Ascii.eqb c "0" then drop_zeros r else rev_digits
  | [] => []
  end.

(** Trailing zeros removed; one digit is kept after the point. *)
Definition strip_zeros (ds : list ascii) : list ascii :=
  match rev (drop_zeros (rev ds)) with
  | [] => ["0"%char]
  | r => r
  end.

(** The text of a finite REAL.  The value is first brought between 1
    and 10 and its decimal exponent counted: at most 4, 36 and 351
    turns of the first three loops pass the test on [exp]; a turn of
    the fourth multiplies by 1e8, so that there are fewer turns than
    the denominator has bits; the fifth starts from 1e-8 at least and
    takes 9 turns at most. *)
Definition real_to_text (x : Q) : string :=
  let prefix := if Qnum x <? 0 then "-" else "" in
  let realvalue := Qabs x in
  let '(realvalue, exp) :=
    if negb (Qle_bool realvalue 0) then
      let st := scale_up 4 c_1e100 100 realvalue (1%Q, 0) in
      let st := scale_up 36 c_1e10 10 realvalue st in
      let '(scale, exp) := scale_up 351 10 1 realvalue st in
      let realvalue := long_double (realvalue / scale) in
      let st := scale_down (Pos.size_nat (Qden realvalue)) c_1e_8 c_1e8 8
                           (realvalue, exp) in
      scale_down 16 1 10 1 st
    else (realvalue, 0) in
  if 350 <? exp then prefix ++ "Inf"
  else
    let realvalue := long_double (realvalue + rounder) in
    let '(realvalue, exp) :=
      if Qle_bool 10 realvalue
      then (long_double (realvalue * c_0_1), exp + 1)
      else (realvalue, exp) in
    let precision := 14 in
    let is_exp := (exp <? -4) || (precision <? exp) in
    let precision := if is_exp then precision else precision - exp in
    let e2 := if is_exp then 0 else exp in
    let st := (realvalue, 26) in
    let '(before, st) :=
      if e2 <? 0 then (["0"%char], st)
      else getdigits (Z.to_nat (e2 + 1)) st in
    let zeros := repeat "0"%char (Z.to_nat (- e2 - 1)) in
    let precision := precision - Z.of_nat (List.length zeros) in
    let '(after, _) := getdigits (Z.to_nat precision) st in
    let suffix :=
      if is_exp then
        let a := Z.abs exp in
        "e" ++ (if exp <? 0 then "-" else "+")
        ++ string_of_list_ascii
             ((if 100 <=? a then [digit_char (a / 100)] else [])
              ++ [digit_char (a mod 100 / 10); digit_char (a mod 10)])%list
      else "" in
    prefix ++ string_of_list_ascii before ++ "."
    ++ string_of_list_ascii (strip_zeros (zeros ++ after)%list) ++ suffix.

(** *** LIKE *)

Definition byte (c : ascii) : Z := Z.of_N (N_of_ascii c).

(** The operands of LIKE are read as C strings: they end at their
    first NUL. *)
Fixpoint c_str (s : list ascii) : list ascii :=
  match s with
  | [] => []
  | c :: r => if byte c =? 0 then [] else c :: c_str r
  end.

(** [(b & 0xc0) == 0x80]: a continuation byte of UTF-8. *)
Definition is_continuation (c : ascii) : bool := Z.land (byte c) 192 =? 128.

(** [sqlite3Utf8Trans1]: the payload bits of a lead byte (0xc0 and
    above). *)
Definition utf8_trans1 (lead : Z) : Z :=
  if lead <? 224 then Z.land lead 31
  else if lead <? 240 then Z.land lead 15
  else if lead <? 248 then Z.land lead 7
  else if lead <? 252 then Z.land lead 3
  else if lead <? 254 then Z.land lead 1
  else 0.

(** The character that [sqlite3Utf8Read] reads from a lead byte and the
    continuation bytes that follow it: their payload bits in a 32-bit
    word; what is no character (below 0x80, a surrogate, 0xfffe or
    0xffff) is read as 0xfffd. *)
Definition code_point (lead : ascii) (conts : list ascii) : Z :=
  let c := fold_left
             (fun c b => (Z.shiftl c 6 + Z.land 63 (byte b)) mod 2 ^ 32)
             conts (utf8_trans1 (byte lead)) in
  if (c <? 128) || (Z.land c 4294965248 =? 55296)
     || (Z.land c 4294967294 =? 65534)
  then 65533 else c.

(** One byte, read from the right: continuation bytes wait for their
    lead byte; those that have none are characters of their own. *)
Definition utf8_step (c : ascii) (st : list ascii * list Z)
  : list ascii * list Z :=
  let '(conts, chars) := st in
  if is_continuation c then (c :: conts, chars)
  else if 192 <=? byte c then ([], code_point c conts :: chars)
  else ([], byte c :: map byte conts ++ chars)%list.

(** The characters of a text, as LIKE reads them one after the
    other. *)
Definition utf8_chars (s : list ascii) : list Z :=
  let '(conts, chars) := fold_right utf8_step ([], []) s in
  (map byte conts ++ chars)%list.

Definition to_lower (c : Z) : Z :=
  if (65 <=? c) && (c <=? 90) then c + 32 else c.

(** The characters are equal, or they are ASCII letters that differ in
    case only. *)
Definition eqb_nocase (c d : Z) : bool :=
  (c =? d) || ((c <? 128) && (d <? 128) && (to_lower c =? to_lower d)).

(** [patternCompare] for LIKE: [%] (37) matches any run of characters,
    [_] (95) any single character, any other character matches
    itself. *)
Fixpoint like_chars (pat : list Z) : list Z -> bool :=
  match pat with
  | [] => fun s => match s with [] => true | _ :: _ => false end
  | c :: pat' =>
      if c =? 37 then
        fix any_run (s : list Z) : bool :=
          like_chars pat' s
          || match s with [] => false | _ :: s' => any_run s' end
      else if c =? 95 then
        fun s => match s with [] => false | _ :: s' => like_chars pat' s' end
      else
        fun s => match s with
                 | [] => false
                 | d :: s' => eqb_nocase c d && like_chars pat' s'
                 end
  end.

(** [text LIKE pattern], for a pattern that the engine accepts. *)
Definition like (text pattern : string) : bool :=
  like_chars (utf8_chars (c_str (list_ascii_of_string pattern)))
             (utf8_chars (c_str (list_ascii_of_string text))).

(** [col LIKE pattern] for the REAL column. *)
Definition like_real (x : Q) (pattern : string) : bool :=
  like (real_to_text x) pattern.

(** SQLITE_MAX_LIKE_PATTERN_LENGTH: the LIKE function fails on a
    pattern of more bytes. *)
Definition like_pattern_limit : N := 50000.

Definition like_pattern_fits (pattern : string) : bool :=
  (N.of_nat (String.length pattern) <=? like_pattern_limit)%N.

End Sql.

(** ** Queries ([Transaction.query], [db.session.query]) *)

(** A query denotes the rows it selects, in scan order. *)
Definition Query : Type := list Transaction.

(** [query.filter(c1, ..., cn)]: the rows on which every criterion holds. *)
Definition filter_all (criteria : list (Transaction -> bool)) (q : Query)
  : Query :=
  filter (fun t => forallb (fun c => c t) criteria) q.

(** [query.count()]. *)
Definition count (q : Query) : Z := Z.of_nat (List.length q).

(** [query.first()]. *)
Definition first (q : Query) : option Transaction := hd_error q.

(** One step of the aggregate SUM ([sumStep]) on a REAL column: the
    value is added to the running sum, a [double] that starts at 0.0. *)
Definition sum_step (acc : option Sql.real) (x : Q) : option Sql.real :=
  Some (Sql.add_double (match acc with
                        | None => Sql.Finite 0
                        | Some a => a
                        end) x).

(** The aggregate [func.sum(col)] read with [.scalar()]: NULL ([None])
    when no row is selected, the running sum of the column over the
    selected rows, in scan order, otherwise. *)
Definition func_sum (col : Transaction -> Q) (q : Query) : option Sql.real :=
  fold_left sum_step (map col q) None.

(** [session.query(col, func.count(id)).group_by(col).all()]: one pair
    per distinct value of the column among the selected rows, with the
    number of rows that carry it.  SQLite emits the groups in ascending
    order of the key; [bump] keeps the association list sorted. *)
Fixpoint bump (k : string) (groups : list (string * Z)) : list (string * Z) :=
  match groups with
  | [] => [(k, 1)]
  | (k', n) :: rest =>
      match String.compare k k' with
      | Eq => (k', n + 1) :: rest
      | Lt => (k, 1) :: groups
      | Gt => (k', n) :: bump k rest
      end
  end.

Definition group_by_count (col : Transaction -> string) (q : Query)
  : list (string * Z) :=
  fold_left (fun groups t => bump (col t) groups) q [].

(** ** Statements that can fail

    The aggregate queries above compare numbers only and cannot fail:
    they are modelled by the rows they select.  The listing query
    carries a LIKE, which the engine refuses for a long pattern, and a
    LIMIT and an OFFSET, which the driver refuses outside 64 bits; it
    is modelled as a statement that is built first and executed
    afterwards. *)

(** A criterion whose evaluation can fail. *)
Definition Clause : Type := Transaction -> result bool.

(** A criterion that cannot fail. *)
Definition criterion (c : Transaction -> bool) : Clause := fun t => Ok (c t).

(** A SELECT on the table that has not been executed yet: the rows to
    scan and the criteria of its WHERE clause, in the order in which
    [filter] added them. *)
Record Select : Type := mkSelect {
  scanned : Query;
  clauses : list Clause
}.

(** [Transaction.query]. *)
Definition Transaction_query (db : Query) : Select := mkSelect db [].

(** [query.filter(c)]. *)
Definition query_filter (q : Select) (c : Clause) : Select :=
  mkSelect (scanned q) (clauses q ++ [c])%list.

(** The WHERE clause on one row: the criteria are evaluated in order,
    up to the first that does not hold. *)
Fixpoint holds (cs : list Clause) (t : Transaction) : result bool :=
  match cs with
  | [] => Ok true
  | c :: rest => b <- c t ;; if b then holds rest t else Ok false
  end.

(** The scan of a SELECT with LIMIT and OFFSET: no row is read when the
    limit is 0, the scan stops after the row that reaches the limit,
    and a negative limit is no limit. *)
Fixpoint scan (cs : list Clause) (rows : Query) (offset limit : Z)
  : result (list Transaction) :=
  match rows with
  | [] => Ok []
  | t :: rest =>
      if limit =? 0 then Ok []
      else
        keep <- holds cs t ;;
        if keep then
          if 0 <? offset then scan cs rest (offset - 1) limit
          else items <- scan cs rest offset (limit - 1) ;; Ok (t :: items)
        else scan cs rest offset limit
  end.

(** [query.limit(limit).offset(offset).all()]: the two integers are
    bound as parameters of the statement, which the driver does for
    64-bit integers only, before the scan starts. *)
Definition limit_offset_all (q : Select) (limit offset : Z)
  : result (list Transaction) :=
  if Sql.int64 limit && Sql.int64 offset
  then scan (clauses q) (scanned q) offset limit
  else Raise OverflowError.

(** [query.order_by(None).count()]: the whole selection is scanned. *)
Definition query_count (q : Select) : result Z :=
  rows <- scan (clauses q) (scanned q) 0 (-1) ;;
  Ok (Z.of_nat (List.length rows)).

(** [query.paginate(page, per_page, error_out)] followed by [.items]
    (Flask-SQLAlchemy 2.x).  A page below 1 and a negative page size
    abort with 404 when [error_out] is set, and fall back to 1 and 20
    otherwise; an empty page other than the first aborts with 404 when
    [error_out] is set.  The items are those of
    [LIMIT per_page OFFSET (page - 1) * per_page].  The total that the
    pagination object carries is counted by a second query, unless the
    first page came out shorter than a page. *)
Definition paginate_items (q : Select) (page per_page : Z) (error_out : bool)
  : result (list Transaction) :=
  page <- (if page <? 1
           then if error_out then Raise NotFound else Ok 1
           else Ok page) ;;
  per_page <- (if per_page <? 0
               then if error_out then Raise NotFound else Ok 20
               else Ok per_page) ;;
  items <- limit_offset_all q per_page ((page - 1) * per_page) ;;
  _ <- (match items with
        | [] => if negb (page =? 1) && error_out then Raise NotFound
                else Ok tt
        | _ :: _ => Ok tt
        end) ;;
  total <- (if (page =? 1) && (Z.of_nat (List.length items) <? per_page)
            then Ok (Z.of_nat (List.length items))
            else query_count q) ;;
  Ok items.

(** ** Requests and responses *)

(** [request.args]: the query-string parameters. *)
Definition Args : Type := list (string * string).

(** [request.args.get(key)]: the first value of [key], or [None]. *)
Definition args_get (args : Args) (key : string) : option string :=
  assoc_get key args.

(** What a view function returns: a response (status 200), or a pair of
    a response body and a status code. *)
Inductive view_rv : Type :=
| Response (body : json)
| WithStatus (body : json) (code : Z).

(** The attribute [.json] of a view's return value: the body of a
    response; a tuple has no such attribute. *)
Definition dot_json (rv : view_rv) : result json :=
  match rv with
  | Response body => Ok body
  | WithStatus _ _ => Raise AttributeError
  end.

(** The status code the client receives.  Flask answers an exception
    that leaves the view with 500 Internal Server Error, except for
    werkzeug's HTTP exceptions, which carry their own code. *)
Definition http_status (r : result view_rv) : Z :=
  match r with
  | Ok (Response _) => 200
  | Ok (WithStatus _ code) => code
  | Raise NotFound => 404
  | Raise _ => 500
  end.

(** The JSON document the client receives, if any: an error page is
    not JSON. *)
Definition http_json (r : result view_rv) : option json :=
  match r with
  | Ok (Response body) => Some body
  | Ok (WithStatus body _) => Some body
  | Raise _ => None
  end.

(** ** The view functions *)

(** [request.args.get(key, default)] with a [str] default. *)
Definition args_get_default (args : Args) (key default : string) : string :=
  match args_get args key with
  | Some v => v
  | None => default
  end.

(** [int(request.args.get(key, default))] with an [int] default: a
    supplied value is a string and is parsed, the default is already an
    integer. *)
Definition int_arg (args : Args) (key : string) (default : Z) : result Z :=
  match args_get args key with
  | Some v => Py.int v
  | None => Ok default
  end.

(** The criterion [extract('month', Transaction.dateOfSale) == month_num]. *)
Definition in_month (month_num : Z) (t : Transaction) : bool :=
  Sql.extract_month (dateOfSale t) =? month_num.

(** The criterion of the search filter: title, description or price
    LIKE the pattern. *)
Definition matches_search (pattern : string) (t : Transaction) : bool :=
  Sql.like (title t) pattern
  || Sql.like (description t) pattern
  || Sql.like_real (price t) pattern.

(** The search filter as a clause of the statement: the LIKE function
    fails, whenever it is called, on a pattern that is too long. *)
Definition search_clause (pattern : string) : Clause :=
  if Sql.like_pattern_fits pattern
  then criterion (matches_search pattern)
  else fun _ => Raise OperationalError.

Definition transaction_json (t : Transaction) : json :=
  JObj [ ("title", JStr (title t));
         ("description", JStr (description t));
         ("price", JNum (price t));
         ("category", JStr (category t));
         ("dateOfSale", JStr (isoformat (dateOfSale t))) ].

Definition get_transactions (db : Query) (args : Args) : result view_rv :=
  let search := args_get_default args "search" "" in
  page <- int_arg args "page" 1 ;;
  per_page <- int_arg args "per_page" 10 ;;
  let month := args_get_default args "month" "" in
  let query := Transaction_query db in
  query <- (if truthy month
            then month_num <- strptime_B_month month ;;
                 Ok (query_filter query (criterion (in_month month_num)))
            else Ok query) ;;
  let query :=
    if truthy search
    then let search := "%" ++ search ++ "%" in
         query_filter query (search_clause search)
    else query in
  transactions <- paginate_items query page per_page false ;;
  Ok (Response (JArr (map transaction_json transactions))).

Definition month_required : view_rv :=
  WithStatus (JObj [("error", JStr "Month is required")]) 400.

(** [jsonify] of the scalar of a SUM. *)
Definition json_of_sum (s : option Sql.real) : json :=
  match s with
  | None => JNull
  | Some (Sql.Finite x) => JNum x
  | Some (Sql.Infinite negative) => JInfinity negative
  end.

Definition price_is_zero (t : Transaction) : bool := Qeq_bool (price t) 0.

Definition get_statistics (db : Query) (args : Args) : result view_rv :=
  let month := args_get args "month" in
  if negb (truthy_opt month) then Ok month_required
  else
    month_num <- strptime_B_month (the_str month) ;;
    let total_sales := func_sum price (filter_all [in_month month_num] db) in
    let total_items := count (filter_all [in_month month_num] db) in
    let not_sold_items :=
      count (filter_all [in_month month_num; price_is_zero] db) in
    Ok (Response (JObj [ ("total_sales", json_of_sum total_sales);
                         ("total_items", JInt total_items);
                         ("not_sold_items", JInt not_sold_items) ])).

(** The upper end of a price range: an integer or [float('inf')]. *)
Inductive bound : Type :=
| Fin (n : Z)
| Inf.

Definition bound_eqb (a b : bound) : bool :=
  match a, b with
  | Fin m, Fin n => m =? n
  | Inf, Inf => true
  | _, _ => false
  end.

Definition ranges : list (Z * bound) :=
  [ (0, Fin 100); (101, Fin 200); (201, Fin 300); (301, Fin 400);
    (401, Fin 500); (501, Fin 600); (601, Fin 700); (701, Fin 800);
    (801, Fin 900); (901, Inf) ].

(** The criterion [Transaction.price >= start]. *)
Definition price_ge (start : Z) (t : Transaction) : bool :=
  Qle_bool (inject_Z start) (price t).

(** The criterion [Transaction.price < b]; every stored price is below
    infinity. *)
Definition price_lt (b : bound) (t : Transaction) : bool :=
  match b with
  | Fin n => negb (Qle_bool (inject_Z n) (price t))
  | Inf => true
  end.

Definition range_label (start : Z) (end_ : bound) : string :=
  str_of_int start ++ "-"
  ++ (if negb (bound_eqb end_ Inf)
      then match end_ with Fin n => str_of_int n | Inf => "inf" end
      else "above").

(** One turn of the loop over [ranges]. *)
Definition bar_entry (db : Query) (month_num : Z) (r : Z * bound) : json :=
  let '(start, end_) := r in
  let count :=
    count (filter_all [ in_month month_num;
                        price_ge start;
                        price_lt (if negb (bound_eqb end_ Inf) then end_ else Inf) ]
                      db) in
  JObj [ ("range", JStr (range_label start end_)); ("count", JInt count) ].

Definition get_bar_chart (db : Query) (args : Args) : result view_rv :=
  let month := args_get args "month" in
  if negb (truthy_opt month) then Ok month_required
  else
    month_num <- strptime_B_month (the_str month) ;;
    let bar_chart_data := map (bar_entry db month_num) ranges in
    Ok (Response (JArr bar_chart_data)).

Definition pie_entry (g : string * Z) : json :=
  let '(c, count) := g in
  JObj [ ("category", JStr c); ("count", JInt count) ].

Definition get_pie_chart (db : Query) (args : Args) : result view_rv :=
  let month := args_get args "month" in
  if negb (truthy_opt month) then Ok month_required
  else
    month_num <- strptime_B_month (the_str month) ;;
    let pie_chart_data :=
      group_by_count category (filter_all [in_month month_num] db) in
    Ok (Response (JArr (map pie_entry pie_chart_data))).

(** The four view functions are called on the request being served:
    [request] is the same object in each of them. *)
Definition get_combined_data (db : Query) (args : Args) : result view_rv :=
  let month := args_get args "month" in
  if negb (truthy_opt month) then Ok month_required
  else
    transactions_response <- get_transactions db args ;;
    statistics_response <- get_statistics db args ;;
    bar_chart_response <- get_bar_chart db args ;;
    pie_chart_response <- get_pie_chart db args ;;
    transactions <- dot_json transactions_response ;;
    statistics <- dot_json statistics_response ;;
    bar_chart <- dot_json bar_chart_response ;;
    pie_chart <- dot_json pie_chart_response ;;
    Ok (Response (JObj [ ("transactions", transactions);
                         ("statistics", statistics);
                         ("bar_chart", bar_chart);
                         ("pie_chart", pie_chart) ])).

(** ** Seeding *)

(** One object of the remote feed. *)
Record item : Type := mkItem {
  item_title : string;
  item_description : string;
  item_price : Q;
  item_category : string;
  item_dateOfSale : string
}.

(** The state that [setup] acts on: the rows of the table (a table that
    does not exist yet counts as empty, [db.create_all] creates it) and
    the URLs requested so far. *)
Record World : Type := mkWorld {
  table : Query;
  http_log : list string
}.

Definition seed_url : string :=
  "https://s3.amazonaws.com/roxiler.com/product_transaction.json".

(** The rowid SQLite gives to the next inserted row: 1 in an empty
    table, one more than the largest rowid otherwise.  (When the
    largest rowid is 2^63 - 1, SQLite draws unused rowids at random
    instead; a table that far is not modelled.) *)
Definition next_id (q : Query) : Z :=
  match map id q with
  | [] => 1
  | i :: ids => 1 + fold_left Z.max ids i
  end.

(** [db.session.commit()]: the pending objects are inserted in the
    order in which they were added; each receives its id on insertion. *)
Fixpoint commit (pending : list (Z -> Transaction)) (q : Query) : Query :=
  match pending with
  | [] => q
  | new :: rest => commit rest (q ++ [new (next_id q)])%list
  end.

Section Seeder.

(** [requests.get(url)] followed by [.json()]: what the network
    answers. *)
Variable http_get_json : string -> result (list item).

(** [parser.parse(s).date()] of dateutil. *)
Variable parser_parse_date : string -> result date.

(** The loop of [seed_data]: each item becomes a pending object of the
    session. *)
Fixpoint add_all (data : list item) (session : list (Z -> Transaction))
  : result (list (Z -> Transaction)) :=
  match data with
  | [] => Ok session
  | it :: rest =>
      d <- parser_parse_date (item_dateOfSale it) ;;
      let transaction := fun i =>
        mkTransaction i (item_title it) (item_description it)
                      (item_price it) (item_category it) d in
      add_all rest (session ++ [transaction])%list
  end.

(** [seed_data]: the final state and the outcome.  When the fetch or
    the parsing of an item raises, nothing has been committed. *)
Definition seed_data (w : World) : World * result unit :=
  let w := mkWorld (table w) (http_log w ++ [seed_url])%list in
  match (data <- http_get_json seed_url ;; add_all data []) with
  | Raise e => (w, Raise e)
  | Ok session => (mkWorld (commit session (table w)) (http_log w), Ok tt)
  end.

Definition create_all (w : World) : World := w.

Definition setup (w : World) : World * result unit :=
  let w := create_all w in
  match first (table w) with
  | None => seed_data w
  | Some _ => (w, Ok tt)
  end.

End Seeder.

(** * Specification vocabulary *)

(** The transaction was sold in month [k] (of any year). *)
Definition sold_in (k : Z) (t : Transaction) : Prop :=
  month (dateOfSale t) = k.

(** [tally P q n]: exactly [n] rows of [q] satisfy [P]. *)
Inductive tally (P : Transaction -> Prop) : Query -> Z -> Prop :=
| tally_nil : tally P [] 0
| tally_hit t q n : P t -> tally P q n -> tally P (t :: q) (n + 1)
| tally_miss t q n : ~ P t -> tally P q n -> tally P (t :: q) n.

(** [price_total P q s]: [s] is the sum of the prices of the rows of [q]
    that satisfy [P]. *)
Inductive price_total (P : Transaction -> Prop) : Query -> Q -> Prop :=
| price_total_nil : price_total P [] 0
| price_total_hit t q s :
    P t -> price_total P q s -> price_total P (t :: q) (price t + s)
| price_total_miss t q s :
    ~ P t -> price_total P q s -> price_total P (t :: q) s.

(** [running_total P q a r]: adding the prices of the rows of [q] that
    satisfy [P] to [a], one after the other in the order of [q] and in
    double precision, gives [r]. *)
Inductive running_total (P : Transaction -> Prop)
  : Query -> Sql.real -> Sql.real -> Prop :=
| running_total_nil a : running_total P [] a a
| running_total_hit t q a r :
    P t -> running_total P q (Sql.add_double a (price t)) r ->
    running_total P (t :: q) a r
| running_total_miss t q a r :
    ~ P t -> running_total P q a r -> running_total P (t :: q) a r.

(** [x] is a finite [double]: an integer below 2^53 in absolute value
    times a power of two from 2^-1074 to 2^971. *)
Definition representable (x : Q) : Prop :=
  exists m e : Z,
    Z.abs m < 2 ^ 53 /\ -1074 <= e <= 971 /\ (x == inject_Z m * 2 ^ e)%Q.

(** [exactly_summable P q a]: every sum of [a] and the prices of the
    first rows of [q] that satisfy [P] is a finite [double]. *)
Inductive exactly_summable (P : Transaction -> Prop) : Query -> Q -> Prop :=
| exactly_summable_nil a : exactly_summable P [] a
| exactly_summable_hit t q a :
    P t -> representable (a + price t) ->
    exactly_summable P q (a + price t) ->
    exactly_summable P (t :: q) a
| exactly_summable_miss t q a :
    ~ P t -> exactly_summable P q a -> exactly_summable P (t :: q) a.

(** A [double] as JSON. *)
Definition json_of_real (r : Sql.real) : json :=
  match r with
  | Sql.Finite x => JNum x
  | Sql.Infinite negative => JInfinity negative
  end.

(** The rows of [q] that satisfy every criterion, counted. *)
Definition count_all (criteria : list (Transaction -> bool)) (q : Query) : Z :=
  count (filter_all criteria q).

(** The view functions for which [month] is required. *)
Definition month_views : list (Query -> Args -> result view_rv) :=
  [get_statistics; get_bar_chart; get_pie_chart; get_combined_data].

(** The view functions that read [month]. *)
Definition all_views : list (Query -> Args -> result view_rv) :=
  [ get_transactions; get_statistics; get_bar_chart; get_pie_chart;
    get_combined_data ].

(** The price ranges as the specification lists them: a label, a closed
    lower end and an open upper end (none for the last range). *)
Definition listed_ranges : list (string * Z * option Z) :=
  [ ("0-100", 0, Some 100); ("101-200", 101, Some 200);
    ("201-300", 201, Some 300); ("301-400", 301, Some 400);
    ("401-500", 401, Some 500); ("501-600", 501, Some 600);
    ("601-700", 601, Some 700); ("701-800", 701, Some 800);
    ("801-900", 801, Some 900); ("901-above", 901, None) ].

(** [p] lies in the range from [lo] (included) to [hi] (excluded). *)
Definition within (lo : Z) (hi : option Z) (p : Q) : Prop :=
  (inject_Z lo <= p)%Q
  /\ match hi with
     | Some h => (p < inject_Z h)%Q
     | None => True
     end.

(** [p] lies in none of the listed ranges: it is negative, or at least a
    multiple of 100 (from 100 to 900) and less than one above it. *)
Definition off_ranges (p : Q) : Prop :=
  (p < inject_Z 0)%Q
  \/ exists j : Z, 1 <= j <= 9
                   /\ (inject_Z (100 * j) <= p)%Q
                   /\ (p < inject_Z (100 * j + 1))%Q.

(** One entry of the bar chart. *)
Definition bucket_json (label : string) (n : Z) : json :=
  JObj [ ("range", JStr label); ("count", JInt n) ].

(** The sum of a list of integers. *)
Definition sumZ (l : list Z) : Z := fold_right Z.add 0 l.

(** The integer members named ["count"] of the items of a JSON array. *)
Definition counts_in (j : json) : list Z :=
  match j with
  | JArr items =>
      flat_map (fun it => match json_get "count" it with
                          | Some (JInt n) => [n]
                          | _ => []
                          end) items
  | _ => []
  end.

(** The criteria of the query that [bar_entry] counts. *)
Definition range_criteria (k : Z) (r : Z * bound) : list (Transaction -> bool) :=
  [ in_month k; price_ge (fst r);
    price_lt (if negb (bound_eqb (snd r) Inf) then snd r else Inf) ].

(** The bound of a modelled range, as the specification writes it. *)
Definition open_end (b : bound) : option Z :=
  match b with
  | Fin h => Some h
  | Inf => None
  end.

(** 1 for true, 0 for false. *)
Definition b2z (b : bool) : Z := if b then 1 else 0.

(** The price criteria of a range, on a price. *)
Definition in_range_b (r : Z * bound) (p : Q) : bool :=
  Qle_bool (inject_Z (fst r)) p
  && match snd r with
     | Fin h => negb (Qle_bool (inject_Z h) p)
     | Inf => true
     end.

(** The number of ranges that a price falls in. *)
Definition hits (p : Q) : Z := sumZ (map (fun r => b2z (in_range_b r p)) ranges).

(** The bucket counts of month [k], added up. *)
Definition bucket_total (k : Z) (db : Query) : Z :=
  sumZ (map (fun r => count_all (range_criteria k r) db) ranges).

(** The order of the group keys. *)
Definition key_lt (a b : string) : Prop := String.compare a b = Lt.

(** Groups with their keys in strictly ascending order. *)
Inductive ascending : list (string * Z) -> Prop :=
| ascending_nil : ascending []
| ascending_cons k n rest :
    Forall (fun g => key_lt k (fst g)) rest ->
    ascending rest -> ascending ((k, n) :: rest).

(** The rows counted under key [k]. *)
Definition key_total (k : string) (groups : list (string * Z)) : Z :=
  sumZ (map snd (filter (fun g => String.eqb (fst g) k) groups)).

(** The groups after the rows of [q] have been added to [groups], keyed
    by the column [col]. *)
Definition grouped (col : Transaction -> string) (q : Query)
           (groups : list (string * Z)) : list (string * Z) :=
  fold_left (fun groups t => bump (col t) groups) q groups.

(** The rows of the month of a listing request, when a month is given;
    an empty value counts as not given. *)
Definition month_set (db : Query) (args : Args) : result Query :=
  match args_get args "month" with
  | Some (String c m) =>
      k <- strptime_B_month (String c m) ;;
      Ok (filter (in_month k) db)
  | _ => Ok db
  end.

(** The rows among [rows] that match the search of a listing request,
    when a search is given; an empty value counts as not given. *)
Definition search_set (rows : Query) (args : Args) : Query :=
  match args_get args "search" with
  | Some (String c s) => filter (matches_search ("%" ++ String c s ++ "%")) rows
  | _ => rows
  end.

(** The filtered result set of a listing request: the rows of the month
    that match the search. *)
Definition filtered_set (db : Query) (args : Args) : result Query :=
  by_month <- month_set db args ;;
  Ok (search_set by_month args).

(** The search text of the request, if any, gives a LIKE pattern that
    the engine accepts: with the two percent signs it has 50000 bytes
    at most. *)
Definition search_fits (args : Args) : Prop :=
  forall s, args_get args "search" = Some s ->
            Z.of_nat (String.length s) + 2 <= 50000.

(** The page [page] of [rows], [n] rows to the page. *)
Definition slice (rows : Query) (page n : Z) : Query :=
  firstn (Z.to_nat n) (skipn (Z.to_nat ((page - 1) * n)) rows).

(** The page that is listed when [page] is asked for: a page below 1
    counts as page 1. *)
Definition page_number (page : Z) : Z := if page <? 1 then 1 else page.

(** The page size that is used when [n] is asked for: a negative size
    counts as 20. *)
Definition page_size (n : Z) : Z := if n <? 0 then 20 else n.

(** ** Sample data *)

(** Three transactions sold in March, priced 0, 150 and 999, and one
    sold in April. *)
Definition bag : Transaction :=
  mkTransaction 1 "Bag" "a leather bag" 0 "men" (mkDate 2021 3 4).
Definition shirt : Transaction :=
  mkTransaction 2 "Shirt" "cotton" 150 "men" (mkDate 2022 3 9).
Definition ring : Transaction :=
  mkTransaction 3 "Ring" "gold bag" 999 "jewelery" (mkDate 2021 3 30).
Definition disk : Transaction :=
  mkTransaction 4 "Disk" "ssd" (201 # 2) "electronics" (mkDate 2021 4 30).

Definition sample_db : Query := [bag; shirt; ring; disk].

Definition march : Args := [("month", "March")].

(** A table whose only row is priced between two buckets. *)
Definition gap_db : Query :=
  [ mkTransaction 1 "Mug" "ceramic" (201 # 2) "home" (mkDate 2022 3 5) ].

(** Two March transactions whose prices add up to 2^53 + 1. *)
Definition large_db : Query :=
  [ mkTransaction 1 "Yacht" "steel" 9007199254740992 "boats" (mkDate 2022 3 5);
    mkTransaction 2 "Buoy" "cork" 1 "boats" (mkDate 2022 3 6) ].

(** A request for a page whose offset is 2^63. *)
Definition far_page : Args :=
  [("page", "9223372036854775809"); ("per_page", "1")].

(** A search text of 49999 bytes: one more than a LIKE pattern holds
    between its two percent signs. *)
Definition long_text : string :=
  string_of_list_ascii (repeat "a"%char (Z.to_nat 49999)).

(** The three bytes of the UTF-8 encoding of the euro sign, U+20AC. *)
Definition euro : string :=
  String (ascii_of_N 226) (String (ascii_of_N 130) (String (ascii_of_N 172) "")).

(** The two bytes of the UTF-8 encoding of the Arabic-Indic digit
    seven, U+0667. *)
Definition arabic_seven : string :=
  String (ascii_of_N 217) (String (ascii_of_N 167) "").

(** A request that carries a search, a page and a page size. *)
Definition busy : Args :=
  [("month", "March"); ("search", "bag"); ("page", "2"); ("per_page", "1")].

(** A feed of two items. *)
Definition sample_feed : list item :=
  [ mkItem "Bag" "a leather bag" 0 "men" "2021-03-04T10:15:00+05:30";
    mkItem "Shirt" "cotton" 150 "men" "2022-03-09T08:00:00+05:30" ].

(** A network that serves the sample feed at the seed URL. *)
Definition sample_http (url : string) : result (list item) :=
  if String.eqb url seed_url then Ok sample_feed else Raise RequestException.

(** A date parser that knows the two dates of the sample feed. *)
Definition sample_parser (s : string) : result date :=
  if String.eqb s "2021-03-04T10:15:00+05:30" then Ok (mkDate 2021 3 4)
  else if String.eqb s "2022-03-09T08:00:00+05:30" then Ok (mkDate 2022 3 9)
  else Raise ValueError.

(** ** Vocabulary of the seeding and listing properties *)





(** The JSON object that lists a row: its title, description, price
    and category, and its date as YYYY-MM-DD; the id is not listed. *)
Definition entry_of (t : Transaction) (j : json) : Prop :=
  j = JObj [ ("title", JStr (title t));
             ("description", JStr (description t));
             ("price", JNum (price t));
             ("category", JStr (category t));
             ("dateOfSale", JStr (isoformat (dateOfSale t))) ].

(** The pattern that the listing builds from a search text. *)
Definition pattern_of (s : string) : string := "%" ++ s ++ "%".

(** ASCII text without NUL. *)
Definition ascii_char (c : ascii) : bool :=
  (0 <? Sql.byte c) && (Sql.byte c <? 128).

Definition ascii_text (s : string) : Prop :=
  forallb ascii_char (list_ascii_of_string s) = true.

(** [text] contains [s], ASCII letters compared without regard to
    case. *)
Definition contains_nocase (text s : string) : Prop :=
  exists pre mid post : string,
    text = pre ++ mid ++ post /\ lower mid = lower s.

(** No character of [s] is a LIKE wildcard. *)
Definition plain_char (c : ascii) : bool :=
  negb (Ascii.eqb c "%" || Ascii.eqb c "_").

Definition plain (s : string) : Prop :=
  forallb plain_char (list_ascii_of_string s) = true.

(** What the month views read of a row: the month of its date, its
    price and its category. *)
Definition month_key (t : Transaction) : Z * Q * string :=
  (month (dateOfSale t), price t, category t).

(** A criterion that reads a row through its month, price and category. *)
Definition by_key (c : Transaction -> bool) : Prop :=
  forall t t', month_key t = month_key t' -> c t = c t'.

(** The views that read the table through the month, the price and the
    category only. *)
Definition chart_views : list (Query -> Args -> result view_rv) :=
  [get_statistics; get_bar_chart; get_pie_chart].


(** A feed whose second item carries no date. *)
Definition bad_feed : list item :=
  [ mkItem "Bag" "a leather bag" 0 "men" "2021-03-04T10:15:00+05:30";
    mkItem "Hat" "felt" 20 "men" "soon" ].

(** A network that serves [bad_feed]. *)
Definition bad_http (url : string) : result (list item) := Ok bad_feed.

(** A network that serves the empty feed. *)
Definition empty_http (url : string) : result (list item) := Ok [].

(** * Properties *)

(** ** Examples *)

Example int_42 : Py.int " +4_2 " = Ok 42.
Proof. reflexivity. Qed.

Example int_neg : Py.int "-007" = Ok (-7).
Proof. reflexivity. Qed.

Example int_bad : Py.int "1__0" = Raise ValueError /\ Py.int "" = Raise ValueError
                  /\ Py.int "ten" = Raise ValueError /\ Py.int "1_" = Raise ValueError.
Proof. repeat split; reflexivity. Qed.

(** The information separators 0x1c to 0x1f are no whitespace for
    [int]; a literal of 4301 digits is too long; the decimal digits of
    other scripts are digits. *)
Example int_edges :
  Py.int (String (ascii_of_N 31) "1") = Raise ValueError
  /\ Py.int (string_of_list_ascii (repeat "1"%char 4301)) = Raise ValueError
  /\ Py.int ("1" ++ arabic_seven) = Ok 17.
Proof. repeat split; vm_compute; reflexivity. Qed.

Example strptime_march : strptime_B_month "mArch" = Ok 3.
Proof. reflexivity. Qed.

Example strptime_bad : strptime_B_month "Mar" = Raise ValueError
                       /\ strptime_B_month "" = Raise ValueError
                       /\ strptime_B_month " March" = Raise ValueError.
Proof. repeat split; reflexivity. Qed.

Example like_wildcards :
  Sql.like "ABC" "a_c" = true /\ Sql.like "abc" "%%" = true
  /\ Sql.like "" "%" = true /\ Sql.like "ab" "_%_" = true
  /\ Sql.like "a" "_%_" = false /\ Sql.like "Fjallraven backpack" "%BACK%" = true.
Proof. repeat split; reflexivity. Qed.

(** An underscore stands for one character, not for one byte; the
    operands end at their first NUL. *)
Example like_characters :
  Sql.like euro "_" = true /\ Sql.like euro "%__" = false
  /\ Sql.like (euro ++ "5") "__" = true
  /\ Sql.like ("a" ++ String (ascii_of_N 0) "b") "a" = true.
Proof. repeat split; vm_compute; reflexivity. Qed.

Example real_to_text_samples :
  map Sql.real_to_text
      [ 329.85; 0; 100; 1000000000000000; 100000000000000; 0.0001;
        0.00001234; 123456789.123456789; 2 # 3; 99.995; - (5 # 2);
        9999999999999999 # 10; 3 # 10 ]%Q
  = [ "329.85"; "0.0"; "100.0"; "1.0e+15"; "100000000000000.0"; "0.0001";
      "1.234e-05"; "123456789.123457"; "0.666666666666667"; "99.995"; "-2.5";
      "1.0e+15"; "0.3" ].
Proof. vm_compute. reflexivity. Qed.

(** The text of a REAL is computed in extended precision and is not
    always the nearest decimal: 100000000000000.5 lies halfway and is
    rendered upwards; 0.1 and 0.30000000000000004 are the doubles
    nearest to these decimals. *)
Example real_to_text_doubles :
  map Sql.real_to_text
      [ 1000000000000005 # 10;
        3602879701896397 # 36028797018963968;
        1351079888211149 # 4503599627370496 ]%Q
  = [ "100000000000001.0"; "0.1"; "0.3" ].
Proof. vm_compute. reflexivity. Qed.

(** A sum in double precision: 0.1 + 0.2 is 0.30000000000000004. *)
Example sum_tenths :
  func_sum price [] = None
  /\ func_sum price
       [ mkTransaction 1 "Pen" "blue" (3602879701896397 # 36028797018963968)
                       "office" (mkDate 2022 3 5);
         mkTransaction 2 "Ink" "blue" (3602879701896397 # 18014398509481984)
                       "office" (mkDate 2022 3 6) ]
     = Some (Sql.Finite (1351079888211149 # 4503599627370496)).
Proof. split; vm_compute; reflexivity. Qed.

Example isoformat_sample : isoformat (mkDate 2021 3 7) = "2021-03-07".
Proof. reflexivity. Qed.

(** The example of the specification: three March records priced 0,
    150 and 999. *)
Example statistics_march :
  get_statistics sample_db march
  = Ok (Response (JObj [ ("total_sales", JNum 1149);
                         ("total_items", JInt 3);
                         ("not_sold_items", JInt 1) ])).
Proof. reflexivity. Qed.

Example bar_chart_march :
  option_map (fun j => match j with
                       | JArr items => map (json_get "count") items
                       | _ => []
                       end)
             (http_json (get_bar_chart sample_db march))
  = Some (map (fun n => Some (JInt n)) [1; 1; 0; 0; 0; 0; 0; 0; 0; 1]).
Proof. reflexivity. Qed.

(** The first start fills the empty table and requests the feed once;
    the second start changes nothing. *)
Example setup_twice :
  let '(w1, r1) := setup sample_http sample_parser (mkWorld [] []) in
  let '(w2, r2) := setup sample_http sample_parser w1 in
  r1 = Ok tt /\ table w1 = [bag; shirt] /\ http_log w1 = [seed_url]
  /\ r2 = Ok tt /\ w2 = w1.
Proof. repeat split; reflexivity. Qed.

(** ** Counting lemmas *)

Section Counting.

Variable P : Transaction -> Prop.
Variable f : Transaction -> bool.
Hypothesis f_spec : forall t, f t = true <-> P t.

Lemma tally_filter (q : Query) : tally P q (count (filter f q)).
Proof.
  unfold count.
  induction q as [|t q IH]; simpl.
  - constructor.
  - destruct (f t) eqn:E.
    + simpl List.length. rewrite Nat2Z.inj_succ, <- Z.add_1_r.
      apply tally_hit; [apply f_spec; exact E | exact IH].
    + apply tally_miss; [|exact IH].
      intro HP. apply f_spec in HP. congruence.
Qed.

Lemma price_total_filter (q : Query) :
  price_total P q (fold_right (fun t s => price t + s)%Q 0%Q (filter f q)).
Proof.
  induction q as [|t q IH]; simpl.
  - constructor.
  - destruct (f t) eqn:E; simpl.
    + apply price_total_hit; [apply f_spec; exact E | exact IH].
    + apply price_total_miss; [|exact IH].
      intro HP. apply f_spec in HP. congruence.
Qed.

Lemma running_total_filter (q : Query) (a : Sql.real) :
  running_total P q a (fold_left Sql.add_double (map price (filter f q)) a).
Proof.
  revert a. induction q as [|t q IH]; intros a; simpl.
  - constructor.
  - destruct (f t) eqn:E; simpl.
    + apply running_total_hit; [apply f_spec; exact E | apply IH].
    + apply running_total_miss; [|apply IH].
      intro HP. apply f_spec in HP. congruence.
Qed.

End Counting.

Lemma tally_functional P q n m : tally P q n -> tally P q m -> n = m.
Proof.
  intros Hn. revert m.
  induction Hn as [|t q n Ht _ IH|t q n Ht _ IH]; intros m Hm;
    inversion Hm; subst; try contradiction; auto.
  f_equal. auto.
Qed.

Lemma tally_bounds P q n : tally P q n -> 0 <= n <= Z.of_nat (List.length q).
Proof.
  induction 1; simpl List.length; try rewrite Nat2Z.inj_succ; lia.
Qed.

(** A stronger property is satisfied by no more rows. *)
Lemma tally_mono (P R : Transaction -> Prop) q n m :
  (forall t, P t -> R t) -> tally P q n -> tally R q m -> n <= m.
Proof.
  intros HPR Hn. revert m.
  induction Hn as [|t q n Ht _ IH|t q n Ht _ IH]; intros m Hm;
    inversion Hm; subst.
  - lia.
  - specialize (IH _ H3). lia.
  - exfalso. auto.
  - specialize (IH _ H3). lia.
  - specialize (IH _ H3). lia.
Qed.

Lemma tally_zero P q : (forall t, In t q -> ~ P t) -> tally P q 0.
Proof.
  induction q as [|t q IH]; intros H.
  - constructor.
  - apply tally_miss.
    + apply H. left. reflexivity.
    + apply IH. intros u Hu. apply H. right. exact Hu.
Qed.

Lemma in_month_spec k t : in_month k t = true <-> sold_in k t.
Proof. unfold in_month, sold_in, Sql.extract_month. apply Z.eqb_eq. Qed.

Lemma price_is_zero_spec t : price_is_zero t = true <-> (price t == 0)%Q.
Proof. unfold price_is_zero. apply Qeq_bool_iff. Qed.

Lemma filter_all_1 c q : filter_all [c] q = filter c q.
Proof.
  unfold filter_all. apply filter_ext. intros t. simpl.
  apply andb_true_r.
Qed.

Lemma filter_all_In criteria q t :
  In t (filter_all criteria q)
  <-> In t q /\ forall c, In c criteria -> c t = true.
Proof.
  unfold filter_all. rewrite filter_In, forallb_forall. tauto.
Qed.

(** ** Month names *)

Lemma valid_month_truthy m k : strptime_B_month m = Ok k -> truthy m = true.
Proof.
  unfold strptime_B_month. destruct (truthy m); [reflexivity | discriminate].
Qed.

Lemma index_from_range x l i k :
  index_from x l i = Some k -> i <= k < i + Z.of_nat (List.length l).
Proof.
  revert i. induction l as [|y l IH]; intros i; simpl index_from.
  - discriminate.
  - simpl List.length. rewrite Nat2Z.inj_succ.
    destruct (String.eqb x y).
    + intros H. inversion H. lia.
    + intros H. apply IH in H. lia.
Qed.

(** A recognised month name resolves to a number between 1 and 12. *)
Lemma valid_month_range m k : strptime_B_month m = Ok k -> 1 <= k <= 12.
Proof.
  unfold strptime_B_month.
  destruct m as [|c m]; cbn [truthy]; [discriminate|].
  destruct (index_from _ _ _) as [i|] eqn:E; [|discriminate].
  intros H. inversion H. subst i.
  change f_month with (EmptyString :: tl f_month) in E.
  change (index_from (lower (String c m)) (tl f_month) (0 + 1) = Some k) in E.
  apply index_from_range in E. simpl List.length in E. lia.
Qed.

(** ** The view functions on a recognised month *)

Section ValidMonth.

Variables (db : Query) (args : Args) (m : string) (k : Z).
Hypothesis month_given : args_get args "month" = Some m.
Hypothesis month_valid : strptime_B_month m = Ok k.

Lemma month_truthy : truthy_opt (args_get args "month") = true.
Proof.
  rewrite month_given. simpl. exact (valid_month_truthy _ _ month_valid).
Qed.

Lemma get_statistics_valid :
  get_statistics db args
  = Ok (Response
          (JObj [ ("total_sales", json_of_sum (func_sum price (filter (in_month k) db)));
                  ("total_items", JInt (count (filter (in_month k) db)));
                  ("not_sold_items",
                   JInt (count_all [in_month k; price_is_zero] db)) ])).
Proof.
  unfold get_statistics. rewrite month_truthy. cbn [negb].
  rewrite month_given. cbn [the_str]. rewrite month_valid. cbn [bind].
  rewrite filter_all_1. reflexivity.
Qed.

Lemma get_bar_chart_valid :
  get_bar_chart db args = Ok (Response (JArr (map (bar_entry db k) ranges))).
Proof.
  unfold get_bar_chart. rewrite month_truthy. cbn [negb].
  rewrite month_given. cbn [the_str]. rewrite month_valid. reflexivity.
Qed.

Lemma get_pie_chart_valid :
  get_pie_chart db args
  = Ok (Response
          (JArr (map pie_entry
                     (group_by_count category (filter (in_month k) db))))).
Proof.
  unfold get_pie_chart. rewrite month_truthy. cbn [negb].
  rewrite month_given. cbn [the_str]. rewrite month_valid. cbn [bind].
  rewrite filter_all_1. reflexivity.
Qed.

End ValidMonth.

(** ** Double precision *)

Lemma pow2_pos k : 0 <= k -> 0 < 2 ^ k.
Proof. intros. apply Z.pow_pos_nonneg; lia. Qed.

Lemma ilog2_lower n d :
  (0 <= Sql.ilog2 n d -> Z.pos d * 2 ^ Sql.ilog2 n d <= Z.pos n)
  /\ (Sql.ilog2 n d < 0 -> Z.pos d <= Z.pos n * 2 ^ (- Sql.ilog2 n d)).
Proof.
  unfold Sql.ilog2.
  pose proof (Z.log2_spec (Z.pos n) eq_refl) as [Hn1 Hn2].
  pose proof (Z.log2_spec (Z.pos d) eq_refl) as [Hd1 Hd2].
  pose proof (Z.log2_nonneg (Z.pos n)) as Ha.
  pose proof (Z.log2_nonneg (Z.pos d)) as Hb.
  set (a := Z.log2 (Z.pos n)) in *. set (b := Z.log2 (Z.pos d)) in *.
  destruct (Z.leb_spec 0 (a - b)) as [He|He].
  - destruct (Z.leb_spec (Z.pos d * 2 ^ (a - b)) (Z.pos n)) as [Hge|Hlt].
    + split; [intros _; exact Hge | lia].
    + split.
      * intros H0.
        assert (E : 2 ^ a = 2 ^ (b + 1) * 2 ^ (a - b - 1)).
        { rewrite <- Z.pow_add_r by lia; f_equal; lia. }
        pose proof (pow2_pos (a - b - 1) H0). nia.
      * intros H0. assert (a - b = 0) by lia.
        replace (- (a - b - 1)) with 1 by lia.
        replace a with b in * by lia.
        change (2 ^ 1) with 2. replace (b + 1) with (Z.succ b) in Hd2 by lia.
        rewrite Z.pow_succ_r in Hd2 by lia. lia.
  - destruct (Z.leb_spec (Z.pos d) (Z.pos n * 2 ^ (- (a - b)))) as [Hge|Hlt].
    + split; [lia | intros _; exact Hge].
    + split; [lia|]. intros _.
      replace (- (a - b - 1)) with (b - a + 1) by lia.
      assert (E : 2 ^ (b + 1) = 2 ^ a * 2 ^ (b - a + 1)).
      { rewrite <- Z.pow_add_r by lia; f_equal; lia. }
      pose proof (pow2_pos (b - a + 1) ltac:(lia)). nia.
Qed.

Lemma round_half_even_exact K D : 0 < D -> Sql.round_half_even (K * D) D = K.
Proof.
  intros HD. unfold Sql.round_half_even.
  rewrite Z.div_mul, Z.mod_mul by lia.
  destruct (Z.ltb_spec D (2 * 0)); [lia|].
  destruct (Z.eqb_spec D (2 * 0)); [lia|]. reflexivity.
Qed.

Lemma Qpow2 k : 0 <= k -> (2 ^ k == inject_Z (2 ^ k))%Q.
Proof.
  intros Hk. change 2%Q with (inject_Z 2). symmetry.
  apply Zpower_Qpower. exact Hk.
Qed.

Lemma scale2_pow m e : (Sql.scale2 m e == inject_Z m * 2 ^ e)%Q.
Proof.
  unfold Sql.scale2. destruct (Z.leb_spec 0 e) as [He|He].
  - rewrite inject_Z_mult, Qpow2 by lia. reflexivity.
  - replace e with (- (- e)) at 2 by lia.
    rewrite Qpower_opp, Qpow2 by lia.
    pose proof (pow2_pos (- e) ltac:(lia)) as Hp.
    rewrite (Qmake_Qdiv m). rewrite Z2Pos.id by exact Hp. reflexivity.
Qed.

(** The equation [n/d = M * 2^e], over the integers. *)
Lemma scale2_eq n d M e :
  (Z.pos n # d == Sql.scale2 M e)%Q ->
  (0 <= e -> Z.pos n = M * 2 ^ e * Z.pos d)
  /\ (e < 0 -> Z.pos n * 2 ^ (- e) = M * Z.pos d).
Proof.
  unfold Sql.scale2, Qeq. destruct (Z.leb_spec 0 e) as [He|He]; cbn [Qnum Qden inject_Z].
  - intros H. split; [intros _; lia | lia].
  - intros H. split; [lia|]. intros _.
    rewrite Z2Pos.id in H by (apply pow2_pos; lia). lia.
Qed.

Lemma round_mantissa n d M e prec emin :
  0 < M < 2 ^ prec -> 1 <= prec -> emin <= e ->
  (Z.pos n # d == Sql.scale2 M e)%Q ->
  let u := Z.max (Sql.ilog2 n d - (prec - 1)) emin in
  u <= e
  /\ (if 0 <=? u
      then Sql.round_half_even (Z.pos n) (Z.pos d * 2 ^ u)
      else Sql.round_half_even (Z.pos n * 2 ^ (- u)) (Z.pos d))
     = M * 2 ^ (e - u).
Proof.
  intros HM Hprec Hemin Hx u.
  destruct (scale2_eq n d M e Hx) as [Hpos Hneg].
  destruct (ilog2_lower n d) as [Lpos Lneg].
  assert (Hu : u <= e).
  { unfold u. apply Z.max_lub; [|exact Hemin].
    set (E := Sql.ilog2 n d) in *.
    destruct (Z.le_gt_cases (E - (prec - 1)) e) as [|Hgt]; [assumption|exfalso].
    assert (HE : prec + e <= E) by lia.
    pose proof (pow2_pos prec ltac:(lia)) as Pp.
    pose proof (pow2_pos (E - prec - e) ltac:(lia)) as Pk.
    set (P := 2 ^ prec) in *. set (K := 2 ^ (E - prec - e)) in *.
    assert (HMK : M < K * P) by nia.
    destruct (Z.le_gt_cases 0 e) as [He|He].
    - specialize (Hpos He). specialize (Lpos ltac:(lia)).
      assert (E1 : 2 ^ E = K * P * 2 ^ e).
      { unfold K, P. rewrite <- !Z.pow_add_r by lia; f_equal; lia. }
      pose proof (pow2_pos e He) as Pe.
      rewrite E1, Hpos in Lpos. set (X := 2 ^ e) in *.
      assert (Z.pos d * (K * P * X) < Z.pos d * (M * X) + 1) by lia.
      assert (M * X < K * P * X) by (apply Z.mul_lt_mono_pos_r; lia).
      assert (Z.pos d * (M * X) < Z.pos d * (K * P * X))
        by (apply Z.mul_lt_mono_pos_l; lia).
      lia.
    - specialize (Hneg He).
      pose proof (pow2_pos (- e) ltac:(lia)) as Pe.
      destruct (Z.le_gt_cases 0 E) as [HE0|HE0].
      + specialize (Lpos HE0).
        assert (E1 : 2 ^ E * 2 ^ (- e) = K * P).
        { unfold K, P. rewrite <- !Z.pow_add_r by lia; f_equal; lia. }
        set (X := 2 ^ (- e)) in *. set (Y := 2 ^ E) in *.
        assert (Z.pos d * Y * X <= Z.pos n * X)
          by (apply Z.mul_le_mono_nonneg_r; lia).
        rewrite Hneg in H. rewrite <- Z.mul_assoc, E1 in H.
        assert (Z.pos d * M < Z.pos d * (K * P))
          by (apply Z.mul_lt_mono_pos_l; lia).
        lia.
      + specialize (Lneg HE0).
        pose proof (pow2_pos (- E) ltac:(lia)) as PE.
        assert (E1 : 2 ^ (- e) = K * P * 2 ^ (- E)).
        { unfold K, P. rewrite <- !Z.pow_add_r by lia; f_equal; lia. }
        set (X := 2 ^ (- e)) in *. set (Y := 2 ^ (- E)) in *.
        assert (Z.pos d * X <= Z.pos n * Y * X)
          by (apply Z.mul_le_mono_nonneg_r; lia).
        replace (Z.pos n * Y * X) with (Z.pos n * X * Y) in H by ring.
        rewrite Hneg, E1 in H.
        assert (M * Y < K * P * Y) by (apply Z.mul_lt_mono_pos_r; lia).
        assert (Z.pos d * (M * Y) < Z.pos d * (K * P * Y))
          by (apply Z.mul_lt_mono_pos_l; lia).
        lia. }
  split; [exact Hu|].
  pose proof (pow2_pos (e - u) ltac:(lia)) as Hk.
  destruct (Z.leb_spec 0 u) as [Hu0|Hu0].
  - specialize (Hpos ltac:(lia)).
    replace (Z.pos n) with (M * 2 ^ (e - u) * (Z.pos d * 2 ^ u)).
    + apply round_half_even_exact. pose proof (pow2_pos u Hu0). nia.
    + rewrite Hpos. replace (2 ^ e) with (2 ^ (e - u) * 2 ^ u).
      * ring.
      * rewrite <- Z.pow_add_r by lia; f_equal; lia.
  - replace (Z.pos n * 2 ^ (- u)) with (M * 2 ^ (e - u) * Z.pos d).
    + apply round_half_even_exact. lia.
    + destruct (Z.le_gt_cases 0 e) as [He|He].
      * rewrite (Hpos He).
        replace (2 ^ (e - u)) with (2 ^ e * 2 ^ (- u)).
        -- ring.
        -- rewrite <- Z.pow_add_r by lia; f_equal; lia.
      * specialize (Hneg He).
        replace (2 ^ (- u)) with (2 ^ (- e) * 2 ^ (e - u)).
        -- rewrite Z.mul_assoc, Hneg. ring.
        -- rewrite <- Z.pow_add_r by lia; f_equal; lia.
Qed.

Lemma scale2_shift M e u :
  u <= e -> (Sql.scale2 (M * 2 ^ (e - u)) u == Sql.scale2 M e)%Q.
Proof.
  intros Hu. rewrite !scale2_pow, inject_Z_mult, <- Qpow2 by lia.
  rewrite <- Qmult_assoc, <- Qpower_plus by discriminate.
  replace (e - u + u) with e by lia. reflexivity.
Qed.

Lemma scale2_opp m u : (Sql.scale2 (- m) u == - Sql.scale2 m u)%Q.
Proof.
  rewrite !scale2_pow, inject_Z_opp. ring.
Qed.

Lemma scale2_sgn m e : Z.sgn (Qnum (Sql.scale2 m e)) = Z.sgn m.
Proof.
  unfold Sql.scale2. destruct (Z.leb_spec 0 e) as [He|He]; cbn [Qnum inject_Z].
  - rewrite Z.sgn_mul, (Z.sgn_pos (2 ^ e)) by (apply pow2_pos; exact He).
    apply Z.mul_1_r.
  - reflexivity.
Qed.

Lemma Qeq_sgn x y : (x == y)%Q -> Z.sgn (Qnum x) = Z.sgn (Qnum y).
Proof.
  unfold Qeq. intros H. apply (f_equal Z.sgn) in H.
  rewrite !Z.sgn_mul in H. cbn [Z.sgn] in H. lia.
Qed.

(** Rounding leaves a number that has the precision as it is. *)
Lemma round_float_exact prec emin x m e :
  Z.abs m < 2 ^ prec -> 1 <= prec -> emin <= e ->
  (x == Sql.scale2 m e)%Q ->
  (Sql.round_float prec emin x == x)%Q.
Proof.
  intros Hm Hprec Hemin Hx. unfold Sql.round_float.
  pose proof (Qeq_sgn _ _ Hx) as Hs. rewrite scale2_sgn in Hs.
  destruct x as [num d]. cbn [Qnum Qden] in *.
  destruct num as [|n|n].
  - reflexivity.
  - assert (Hpos : 0 < m) by (apply Z.sgn_pos_iff; now rewrite <- Hs).
    destruct (round_mantissa n d m e prec emin ltac:(lia) Hprec Hemin Hx)
      as [Hu Hr].
    cbv zeta. rewrite Hr. rewrite Qred_correct.
    change (Z.sgn (Z.pos n)) with 1. rewrite Z.mul_1_l.
    rewrite scale2_shift by exact Hu. symmetry. exact Hx.
  - assert (Hneg : m < 0) by (apply Z.sgn_neg_iff; now rewrite <- Hs).
    assert (Hx' : (Z.pos n # d == Sql.scale2 (- m) e)%Q).
    { rewrite scale2_opp, <- Hx. reflexivity. }
    destruct (round_mantissa n d (- m) e prec emin ltac:(lia) Hprec Hemin Hx')
      as [Hu Hr].
    cbv zeta. rewrite Hr. rewrite Qred_correct.
    change (Z.sgn (Z.neg n)) with (-1).
    replace (-1 * (- m * 2 ^ (e - Z.max (Sql.ilog2 n d - (prec - 1)) emin)))
      with (- (- m * 2 ^ (e - Z.max (Sql.ilog2 n d - (prec - 1)) emin)))
      by ring.
    rewrite scale2_opp, scale2_shift by exact Hu.
    rewrite <- Hx'. reflexivity.
Qed.

(** A finite double is below 2^1024 in absolute value. *)
Lemma representable_below x :
  representable x -> (Qabs x < inject_Z (2 ^ 1024))%Q.
Proof.
  intros (m & e & Hm & He & Hx). rewrite Hx, Qabs_Qmult.
  assert (H2 : (0 < 2 ^ e)%Q) by (apply Qpower_0_lt; reflexivity).
  rewrite (Qabs_pos (2 ^ e)) by (apply Qlt_le_weak; exact H2).
  apply Qlt_le_trans with (inject_Z (2 ^ 53) * 2 ^ e)%Q.
  - apply Qmult_lt_compat_r; [exact H2|].
    unfold Qabs, inject_Z, Qlt. cbn [Qnum Qden]. lia.
  - rewrite <- Qpow2 by lia. rewrite <- Qpow2 by lia.
    rewrite <- Qpower_plus by discriminate.
    apply Qpower_le_compat_l; [lia | discriminate].
Qed.

Lemma round_double_exact x :
  representable x ->
  exists y, Sql.round_double x = Sql.Finite y /\ (y == x)%Q.
Proof.
  intros Hr. pose proof (representable_below x Hr) as Hb.
  destruct Hr as (m & e & Hm & He & Hx).
  assert (E : (Sql.round_float 53 (-1074) x == x)%Q).
  { apply (round_float_exact 53 (-1074) x m e); try lia.
    rewrite scale2_pow. exact Hx. }
  unfold Sql.round_double. cbv zeta.
  destruct (Qle_bool (inject_Z (2 ^ 1024)) (Qabs (Sql.round_float 53 (-1074) x)))
    eqn:B.
  - exfalso. apply Qle_bool_iff in B. rewrite E in B.
    exact (Qlt_not_le _ _ Hb B).
  - eexists. split; [reflexivity | exact E].
Qed.

Lemma representable_eq x y : (x == y)%Q -> representable x -> representable y.
Proof.
  intros E (m & e & Hm & He & Hx). exists m, e.
  split; [exact Hm|]. split; [exact He|]. rewrite <- E. exact Hx.
Qed.

(** ** Sums *)

Lemma fold_sum_step_some (l : list Q) (a : Sql.real) :
  fold_left sum_step l (Some a) = Some (fold_left Sql.add_double l a).
Proof.
  revert a. induction l as [|x l IH]; intros a; simpl; [reflexivity|].
  apply IH.
Qed.

(** [func_sum] is NULL exactly on the empty selection, and the running
    sum of the column, from 0.0, otherwise. *)
Lemma func_sum_fold (q : Query) :
  func_sum price q
  = match q with
    | [] => None
    | _ :: _ => Some (fold_left Sql.add_double (map price q) (Sql.Finite 0))
    end.
Proof.
  destruct q as [|t q]; [reflexivity|].
  unfold func_sum. cbn [map fold_left]. unfold sum_step at 2.
  apply fold_sum_step_some.
Qed.

(** A running sum whose partial sums are all finite doubles is the
    exact sum. *)
Lemma running_total_exact P q :
  forall (a a' : Q) (r : Sql.real) (s : Q),
    running_total P q (Sql.Finite a') r ->
    (a' == a)%Q ->
    exactly_summable P q a ->
    price_total P q s ->
    exists y, r = Sql.Finite y /\ (y == a + s)%Q.
Proof.
  induction q as [|t q IH]; intros a a' r s Hrun Ha Hex Htot.
  - inversion Hrun; subst. inversion Htot; subst.
    exists a'. split; [reflexivity|]. rewrite Ha. ring.
  - inversion Hrun as [|? ? ? ? Pt Hrun'|? ? ? ? Pt Hrun']; subst;
      inversion Hex as [|? ? ? Pt' Hrep Hex'|? ? ? Pt' Hex']; subst;
      try contradiction;
      inversion Htot as [|? ? s0 Pt'' Htot'|? ? ? Pt'' Htot']; subst;
      try contradiction.
    + cbn [Sql.add_double] in Hrun'.
      assert (Hrep' : representable (a' + price t)).
      { apply (representable_eq (a + price t)); [|exact Hrep].
        rewrite Ha. reflexivity. }
      destruct (round_double_exact _ Hrep') as [y1 [E1 Hy1]].
      rewrite E1 in Hrun'.
      destruct (IH (a + price t)%Q y1 r s0 Hrun') as [y [Hr Hy]];
        [rewrite Hy1, Ha; reflexivity | exact Hex' | exact Htot' |].
      exists y. split; [exact Hr|]. rewrite Hy. ring.
    + exact (IH a a' r s Hrun' Ha Hex' Htot').
Qed.

Lemma filter_none {A} (f : A -> bool) (l : list A) :
  (forall x, In x l -> f x = false) -> filter f l = [].
Proof.
  induction l as [|x l IH]; intros H; simpl; [reflexivity|].
  rewrite (H x (or_introl eq_refl)). apply IH.
  intros y Hy. apply H. right. exact Hy.
Qed.

(** ** Missing month *)

(** C8.  When the request carries no [month] parameter, each of
    /statistics, /bar_chart, /pie_chart and /combined_data answers with
    the error body [{"error": "Month is required"}] and status 400,
    whatever the table holds: the answer is the same for every table, so
    no row is read and no result data is returned. *)
Theorem missing_month_is_bad_request (args : Args) :
  args_get args "month" = None ->
  Forall (fun view =>
            forall db : Query,
              view db args
              = Ok (WithStatus (JObj [("error", JStr "Month is required")]) 400)
              /\ http_status (view db args) = 400)
         month_views.
Proof.
  intros Hnone. unfold month_views.
  repeat constructor;
    unfold get_statistics, get_bar_chart, get_pie_chart, get_combined_data;
    rewrite Hnone; reflexivity.
Qed.

Lemma missing_month_is_bad_request_witness :
  Forall (fun view =>
            forall db : Query,
              view db [("page", "2")]
              = Ok (WithStatus (JObj [("error", JStr "Month is required")]) 400)
              /\ http_status (view db [("page", "2")]) = 400)
         month_views.
Proof. apply (missing_month_is_bad_request [("page", "2")]). reflexivity. Defined.

(** ** Statistics *)

(** C10.  For a recognised month in which no transaction was sold,
    /statistics answers with [total_items] 0, [not_sold_items] 0 and
    [total_sales] null (the SUM of no rows), not the number 0. *)
Theorem statistics_of_empty_month (db : Query) (args : Args) (m : string) (k : Z) :
  args_get args "month" = Some m ->
  strptime_B_month m = Ok k ->
  (forall t, In t db -> ~ sold_in k t) ->
  get_statistics db args
  = Ok (Response (JObj [ ("total_sales", JNull);
                         ("total_items", JInt 0);
                         ("not_sold_items", JInt 0) ]))
  /\ JNull <> JNum 0.
Proof.
  intros Hm Hk Hnone. split; [|discriminate].
  rewrite (get_statistics_valid db args m k Hm Hk).
  assert (E : filter (in_month k) db = []).
  { apply filter_none. intros t Ht.
    destruct (in_month k t) eqn:B; [|reflexivity].
    apply in_month_spec in B. exfalso. exact (Hnone t Ht B). }
  assert (E2 : filter_all [in_month k; price_is_zero] db = []).
  { unfold filter_all. apply filter_none. intros t Ht. simpl.
    destruct (in_month k t) eqn:B; [|reflexivity].
    apply in_month_spec in B. exfalso. exact (Hnone t Ht B). }
  unfold count_all. rewrite E, E2. reflexivity.
Qed.

Lemma statistics_of_empty_month_witness :
  get_statistics sample_db [("month", "May")]
  = Ok (Response (JObj [ ("total_sales", JNull);
                         ("total_items", JInt 0);
                         ("not_sold_items", JInt 0) ]))
  /\ JNull <> JNum 0.
Proof.
  apply (statistics_of_empty_month sample_db [("month", "May")] "May" 5);
    try reflexivity.
  intros t Ht. unfold sold_in. simpl in Ht.
  repeat (destruct Ht as [Ht|Ht]; [subst t; simpl; lia|]).
  destruct Ht.
Defined.

(** C6, as the specification words it, fails in two ways.  On a month
    without transactions the sum of the prices of no transactions is 0,
    and [total_sales] is null, which is not a number.  And the sum is
    computed in double precision: the two March prices of [large_db]
    add up to 2^53 + 1, and [total_sales] is 2^53. *)
Lemma statistics_total_sales_counterexample :
  price_total (sold_in 3) [] 0
  /\ option_map (json_get "total_sales") (http_json (get_statistics [] march))
     = Some (Some JNull)
  /\ JNull <> JNum 0
  /\ price_total (sold_in 3) large_db (9007199254740992 + (1 + 0))
  /\ option_map (json_get "total_sales")
                (http_json (get_statistics large_db march))
     = Some (Some (JNum 9007199254740992))
  /\ ~ (9007199254740992 == 9007199254740992 + (1 + 0))%Q.
Proof.
  split; [constructor|]. split; [reflexivity|]. split; [discriminate|].
  split; [repeat (apply price_total_hit; [reflexivity|]); constructor|].
  split; [vm_compute; reflexivity|].
  intros H. vm_compute in H. discriminate H.
Qed.

Lemma json_of_sum_some r : json_of_sum (Some r) = json_of_real r.
Proof. destruct r; reflexivity. Qed.

(** C6, amended.  For a recognised month, /statistics answers with
    [total_items] the number of transactions sold in that month,
    [not_sold_items] the number of those whose price is 0, which is at
    most [total_items], and [total_sales] null when there is no such
    transaction.  When there is one, [total_sales] is what adding their
    prices to 0.0 gives, one after the other in the order of the table
    and in double precision; this is the sum of the prices when every
    partial sum is a finite double. *)
Theorem statistics_fields (db : Query) (args : Args) (m : string) (k : Z) :
  args_get args "month" = Some m ->
  strptime_B_month m = Ok k ->
  exists (sales : json) (total not_sold : Z),
    get_statistics db args
    = Ok (Response (JObj [ ("total_sales", sales);
                           ("total_items", JInt total);
                           ("not_sold_items", JInt not_sold) ]))
    /\ tally (sold_in k) db total
    /\ tally (fun t => sold_in k t /\ (price t == 0)%Q) db not_sold
    /\ not_sold <= total
    /\ (total = 0 -> sales = JNull)
    /\ (total <> 0 ->
        exists r : Sql.real,
          running_total (sold_in k) db (Sql.Finite 0) r
          /\ sales = json_of_real r)
    /\ (total <> 0 ->
        exactly_summable (sold_in k) db 0 ->
        exists s s' : Q,
          sales = JNum s /\ price_total (sold_in k) db s' /\ (s == s')%Q).
Proof.
  intros Hm Hk.
  rewrite (get_statistics_valid db args m k Hm Hk).
  eexists _, _, _. split; [reflexivity|].
  assert (Htotal : tally (sold_in k) db (count (filter (in_month k) db))).
  { apply tally_filter. apply in_month_spec. }
  assert (Hnot : tally (fun t => sold_in k t /\ (price t == 0)%Q) db
                       (count_all [in_month k; price_is_zero] db)).
  { unfold count_all, filter_all. apply tally_filter.
    intros t. simpl. rewrite andb_true_r, andb_true_iff.
    rewrite in_month_spec, price_is_zero_spec. reflexivity. }
  split; [exact Htotal|]. split; [exact Hnot|].
  split; [apply (tally_mono _ _ _ _ _ (fun t H => proj1 H) Hnot Htotal)|].
  pose proof (running_total_filter (sold_in k) (in_month k) (in_month_spec k)
                db (Sql.Finite 0)) as Hrun.
  pose proof (price_total_filter (sold_in k) (in_month k) (in_month_spec k) db)
    as Htot.
  rewrite func_sum_fold. unfold count.
  destruct (filter (in_month k) db) as [|t rows] eqn:Hrows.
  - split; [reflexivity|]. split; intros H; now elim H.
  - rewrite json_of_sum_some.
    split; [intros H; simpl List.length in H; lia|].
    split.
    + intros _. eexists. split; [exact Hrun | reflexivity].
    + intros _ Hex.
      destruct (running_total_exact _ _ 0%Q 0%Q _ _ Hrun (Qeq_refl 0) Hex Htot)
        as [y [Hy Hs]].
      rewrite Hy. cbn [json_of_real]. eexists y, _.
      split; [reflexivity|]. split; [exact Htot|].
      rewrite Hs. ring.
Qed.

Lemma statistics_fields_witness :
  exists (sales : json) (total not_sold : Z),
    get_statistics sample_db march
    = Ok (Response (JObj [ ("total_sales", sales);
                           ("total_items", JInt total);
                           ("not_sold_items", JInt not_sold) ]))
    /\ tally (sold_in 3) sample_db total
    /\ tally (fun t => sold_in 3 t /\ (price t == 0)%Q) sample_db not_sold
    /\ not_sold <= total
    /\ (total = 0 -> sales = JNull)
    /\ (total <> 0 ->
        exists r : Sql.real,
          running_total (sold_in 3) sample_db (Sql.Finite 0) r
          /\ sales = json_of_real r)
    /\ (total <> 0 ->
        exactly_summable (sold_in 3) sample_db 0 ->
        exists s s' : Q,
          sales = JNum s /\ price_total (sold_in 3) sample_db s' /\ (s == s')%Q).
Proof. apply (statistics_fields sample_db march "March" 3); reflexivity. Defined.

(** On the sample data every partial sum is an integer, hence a finite
    double: [total_sales] is the sum of the three March prices. *)
Example statistics_march_exact : exactly_summable (sold_in 3) sample_db 0.
Proof.
  unfold sample_db.
  apply exactly_summable_hit; [reflexivity | |].
  { exists 0, 0. repeat split; try lia; vm_compute; reflexivity. }
  apply exactly_summable_hit; [reflexivity | |].
  { exists 150, 0. repeat split; try lia; vm_compute; reflexivity. }
  apply exactly_summable_hit; [reflexivity | |].
  { exists 1149, 0. repeat split; try lia; vm_compute; reflexivity. }
  apply exactly_summable_miss; [discriminate | constructor].
Qed.

(** ** The bar chart *)

Lemma bar_entry_unfold db k r :
  bar_entry db k r
  = bucket_json (range_label (fst r) (snd r)) (count_all (range_criteria k r) db).
Proof. destruct r as [start end_]. reflexivity. Qed.

Lemma price_ge_spec lo t : price_ge lo t = true <-> (inject_Z lo <= price t)%Q.
Proof. unfold price_ge. apply Qle_bool_iff. Qed.

Lemma price_lt_fin_spec h t :
  price_lt (Fin h) t = true <-> (price t < inject_Z h)%Q.
Proof.
  unfold price_lt. rewrite negb_true_iff. split.
  - intros H. apply Qnot_le_lt. intros Hle.
    apply Qle_bool_iff in Hle. congruence.
  - intros H. apply not_true_is_false. intros Hle.
    apply Qle_bool_iff in Hle. exact (Qlt_not_le _ _ H Hle).
Qed.

Lemma range_criteria_spec k r t :
  forallb (fun c => c t) (range_criteria k r) = true
  <-> sold_in k t /\ within (fst r) (open_end (snd r)) (price t).
Proof.
  destruct r as [lo [h|]]; unfold range_criteria, within;
    cbn [forallb fst snd open_end bound_eqb negb];
    rewrite ?andb_true_r, ?andb_true_iff, in_month_spec, price_ge_spec.
  - rewrite price_lt_fin_spec. reflexivity.
  - cbn [price_lt]. tauto.
Qed.

(** C2.  For a recognised month, /bar_chart answers with exactly the
    ten listed buckets, in the listed order, and the count of each
    bucket is the number of transactions sold in that month whose price
    p satisfies lo <= p < hi for the listed pair (lo <= p alone for the
    last bucket); the ends are the listed ones, 100 and 101, 200 and
    201, ... are not joined. *)
Theorem bar_chart_buckets (db : Query) (args : Args) (m : string) (k : Z) :
  args_get args "month" = Some m ->
  strptime_B_month m = Ok k ->
  exists counts : list Z,
    get_bar_chart db args
    = Ok (Response
            (JArr (map (fun '((label, _, _), n) => bucket_json label n)
                       (combine listed_ranges counts))))
    /\ Forall2 (fun '(_, lo, hi) n =>
                  tally (fun t => sold_in k t /\ within lo hi (price t)) db n)
               listed_ranges counts.
Proof.
  intros Hm Hk.
  rewrite (get_bar_chart_valid db args m k Hm Hk).
  exists (map (fun r => count_all (range_criteria k r) db) ranges).
  split.
  - unfold ranges. cbn [map]. rewrite !bar_entry_unfold. reflexivity.
  - unfold ranges, listed_ranges. cbn [map].
    repeat (apply Forall2_cons;
            [ cbv beta iota; unfold count_all, filter_all;
              apply tally_filter; intros t;
              match goal with
              | |- context [range_criteria k ?r] =>
                  exact (range_criteria_spec k r t)
              end | ]).
    apply Forall2_nil.
Qed.

Lemma bar_chart_buckets_witness :
  exists counts : list Z,
    get_bar_chart sample_db march
    = Ok (Response
            (JArr (map (fun '((label, _, _), n) => bucket_json label n)
                       (combine listed_ranges counts))))
    /\ Forall2 (fun '(_, lo, hi) n =>
                  tally (fun t => sold_in 3 t /\ within lo hi (price t))
                        sample_db n)
               listed_ranges counts.
Proof. apply (bar_chart_buckets sample_db march "March" 3); reflexivity. Defined.

(** *** Every price hits at most one range *)

Lemma Q_between (a b : Z) (p : Q) :
  (inject_Z a <= p)%Q -> (p < inject_Z b)%Q -> a < b.
Proof.
  intros Ha Hb. rewrite Zlt_Qlt. exact (Qle_lt_trans _ _ _ Ha Hb).
Qed.

Ltac bounds :=
  repeat match goal with
    | |- context [Qle_bool (inject_Z ?a) ?p] =>
        first
          [ replace (Qle_bool (inject_Z a) p) with true
              by (symmetry; apply Qle_bool_iff; unfold inject_Z in *; lra)
          | replace (Qle_bool (inject_Z a) p) with false
              by (symmetry; apply not_true_is_false; rewrite Qle_bool_iff;
                  unfold inject_Z in *; lra) ]
    end.

Ltac in_bucket Hlo Hhi :=
  left; split;
  [ intros [Hn | (j & Hj & Ha & Hb)];
    [ pose proof (Q_between _ _ _ Hlo Hn)
    | pose proof (Q_between _ _ _ Ha Hhi);
      pose proof (Q_between _ _ _ Hlo Hb) ]; lia
  | bounds; reflexivity ].

Ltac off_bucket i Hlo Hhi :=
  right; split;
  [ right; exists i; split; [lia | split; [exact Hlo | exact Hhi]]
  | bounds; reflexivity ].

Lemma price_cases (p : Q) :
  (~ off_ranges p /\ hits p = 1) \/ (off_ranges p /\ hits p = 0).
Proof.
  unfold hits, ranges, in_range_b. cbn [map fst snd].
  destruct (Qlt_le_dec p (inject_Z 0)) as [L0|G0].
  { right. split; [left; exact L0 | bounds; reflexivity]. }
  destruct (Qlt_le_dec p (inject_Z 100)) as [L1|G1]; [in_bucket G0 L1|].
  destruct (Qlt_le_dec p (inject_Z 101)) as [M1|H1]; [off_bucket 1 G1 M1|].
  destruct (Qlt_le_dec p (inject_Z 200)) as [L2|G2]; [in_bucket H1 L2|].
  destruct (Qlt_le_dec p (inject_Z 201)) as [M2|H2]; [off_bucket 2 G2 M2|].
  destruct (Qlt_le_dec p (inject_Z 300)) as [L3|G3]; [in_bucket H2 L3|].
  destruct (Qlt_le_dec p (inject_Z 301)) as [M3|H3]; [off_bucket 3 G3 M3|].
  destruct (Qlt_le_dec p (inject_Z 400)) as [L4|G4]; [in_bucket H3 L4|].
  destruct (Qlt_le_dec p (inject_Z 401)) as [M4|H4]; [off_bucket 4 G4 M4|].
  destruct (Qlt_le_dec p (inject_Z 500)) as [L5|G5]; [in_bucket H4 L5|].
  destruct (Qlt_le_dec p (inject_Z 501)) as [M5|H5]; [off_bucket 5 G5 M5|].
  destruct (Qlt_le_dec p (inject_Z 600)) as [L6|G6]; [in_bucket H5 L6|].
  destruct (Qlt_le_dec p (inject_Z 601)) as [M6|H6]; [off_bucket 6 G6 M6|].
  destruct (Qlt_le_dec p (inject_Z 700)) as [L7|G7]; [in_bucket H6 L7|].
  destruct (Qlt_le_dec p (inject_Z 701)) as [M7|H7]; [off_bucket 7 G7 M7|].
  destruct (Qlt_le_dec p (inject_Z 800)) as [L8|G8]; [in_bucket H7 L8|].
  destruct (Qlt_le_dec p (inject_Z 801)) as [M8|H8]; [off_bucket 8 G8 M8|].
  destruct (Qlt_le_dec p (inject_Z 900)) as [L9|G9]; [in_bucket H8 L9|].
  destruct (Qlt_le_dec p (inject_Z 901)) as [M9|H9]; [off_bucket 9 G9 M9|].
  left. split.
  - intros [Hn | (j & Hj & Ha & Hb)].
    + pose proof (Q_between _ _ _ H9 Hn). lia.
    + pose proof (Q_between _ _ _ H9 Hb). lia.
  - bounds. reflexivity.
Qed.

(** *** The sum of the bucket counts *)

Lemma count_filter_cons (f : Transaction -> bool) t q :
  count (filter f (t :: q)) = b2z (f t) + count (filter f q).
Proof.
  unfold count. simpl filter. destruct (f t); simpl b2z; [|reflexivity].
  simpl List.length. lia.
Qed.

Lemma sumZ_map_add {A} (g h : A -> Z) (l : list A) :
  sumZ (map (fun x => g x + h x) l) = sumZ (map g l) + sumZ (map h l).
Proof. induction l as [|x l IH]; simpl; [reflexivity | rewrite IH; lia]. Qed.

Lemma sumZ_map_zero {A} (l : list A) : sumZ (map (fun _ => 0) l) = 0.
Proof. induction l as [|x l IH]; simpl; [reflexivity | exact IH]. Qed.

(** Counting per criterion and adding up, or adding up per row: the
    same number. *)
Lemma sum_counts_exchange (fs : list (Transaction -> bool)) (q : Query) :
  sumZ (map (fun f => count (filter f q)) fs)
  = sumZ (map (fun t => sumZ (map (fun f => b2z (f t)) fs)) q).
Proof.
  induction q as [|t q IH].
  - simpl. apply sumZ_map_zero.
  - cbn [map sumZ fold_right]. fold (sumZ (map (fun t => sumZ (map (fun f => b2z (f t)) fs)) q)).
    rewrite <- IH, <- sumZ_map_add.
    f_equal. apply map_ext. intros f. apply count_filter_cons.
Qed.

Lemma range_criteria_split k r t :
  forallb (fun c => c t) (range_criteria k r)
  = in_month k t && in_range_b r (price t).
Proof.
  destruct r as [lo [h|]]; unfold range_criteria, in_range_b;
    cbn [forallb fst snd bound_eqb negb price_lt]; unfold price_ge;
    rewrite !andb_true_r; reflexivity.
Qed.

Lemma sumZ_guard {A} (a : bool) (g : A -> bool) (l : list A) :
  sumZ (map (fun x => b2z (a && g x)) l)
  = b2z a * sumZ (map (fun x => b2z (g x)) l).
Proof.
  destruct a; simpl andb.
  - simpl b2z. lia.
  - rewrite sumZ_map_zero. reflexivity.
Qed.

Lemma bucket_total_rows k db :
  bucket_total k db
  = sumZ (map (fun t => b2z (in_month k t) * hits (price t)) db).
Proof.
  unfold bucket_total, count_all, filter_all.
  rewrite <- (map_map (fun r => fun t => forallb (fun c => c t) (range_criteria k r))
                      (fun f => count (filter f db))).
  rewrite sum_counts_exchange.
  f_equal. apply map_ext. intros t.
  rewrite map_map. unfold hits. rewrite <- sumZ_guard.
  f_equal. apply map_ext. intros r. now rewrite range_criteria_split.
Qed.

(** The transactions of the month that no bucket counts are those whose
    price lies off the ranges. *)
Lemma missed_tally k db :
  tally (fun t => sold_in k t /\ off_ranges (price t)) db
        (count (filter (in_month k) db) - bucket_total k db).
Proof.
  rewrite bucket_total_rows.
  induction db as [|t db IH].
  - simpl. constructor.
  - rewrite count_filter_cons. cbn [map sumZ fold_right].
    fold (sumZ (map (fun t => b2z (in_month k t) * hits (price t)) db)).
    set (c := count (filter (in_month k) db)) in *.
    set (s := sumZ (map (fun t => b2z (in_month k t) * hits (price t)) db)) in *.
    destruct (in_month k t) eqn:Hk; simpl b2z.
    + apply in_month_spec in Hk.
      destruct (price_cases (price t)) as [[Hoff Hhits]|[Hoff Hhits]];
        rewrite Hhits.
      * replace (1 + c - (1 * 1 + s)) with (c - s) by lia.
        apply tally_miss; [tauto | exact IH].
      * replace (1 + c - (1 * 0 + s)) with (c - s + 1) by lia.
        apply tally_hit; [tauto | exact IH].
    + replace (0 + c - (0 * hits (price t) + s)) with (c - s) by lia.
      apply tally_miss; [|exact IH].
      intros [Hs _]. apply in_month_spec in Hs. congruence.
Qed.

Lemma counts_in_bar_chart k db :
  counts_in (JArr (map (bar_entry db k) ranges))
  = map (fun r => count_all (range_criteria k r) db) ranges.
Proof.
  unfold ranges. cbn [map]. rewrite !bar_entry_unfold. reflexivity.
Qed.

(** C1 fails on a price strictly between 100 and 101: the only March
    transaction costs 100.5, /statistics counts it, and every bucket of
    /bar_chart is empty. *)
Lemma bar_chart_sum_counterexample :
  option_map (json_get "total_items") (http_json (get_statistics gap_db march))
  = Some (Some (JInt 1))
  /\ option_map counts_in (http_json (get_bar_chart gap_db march))
     = Some [0; 0; 0; 0; 0; 0; 0; 0; 0; 0].
Proof. split; reflexivity. Qed.

(** C1, amended.  For a recognised month, the ten bucket counts of
    /bar_chart add up to the [total_items] of /statistics minus the
    number of transactions of that month whose price lies off the
    ranges, that is, is negative or at least 100 j and less than
    100 j + 1 for some j from 1 to 9.  So the sum never exceeds
    [total_items], and equals it when no price of the month lies off the
    ranges. *)
Theorem bar_chart_counts_sum (db : Query) (args : Args) (m : string) (k : Z) :
  args_get args "month" = Some m ->
  strptime_B_month m = Ok k ->
  exists (chart stats : json) (total missed : Z),
    get_bar_chart db args = Ok (Response chart)
    /\ get_statistics db args = Ok (Response stats)
    /\ json_get "total_items" stats = Some (JInt total)
    /\ List.length (counts_in chart) = 10%nat
    /\ tally (sold_in k) db total
    /\ tally (fun t => sold_in k t /\ off_ranges (price t)) db missed
    /\ sumZ (counts_in chart) = total - missed
    /\ sumZ (counts_in chart) <= total.
Proof.
  intros Hm Hk.
  rewrite (get_bar_chart_valid db args m k Hm Hk).
  rewrite (get_statistics_valid db args m k Hm Hk).
  exists (JArr (map (bar_entry db k) ranges)).
  eexists. exists (count (filter (in_month k) db)).
  exists (count (filter (in_month k) db) - bucket_total k db).
  pose proof (missed_tally k db) as Hmissed.
  split; [reflexivity|]. split; [reflexivity|]. split; [reflexivity|].
  rewrite counts_in_bar_chart. fold (bucket_total k db).
  split; [reflexivity|].
  split; [apply tally_filter; apply in_month_spec|].
  split; [exact Hmissed|].
  apply tally_bounds in Hmissed. split; lia.
Qed.

Lemma bar_chart_counts_sum_witness :
  exists (chart stats : json) (total missed : Z),
    get_bar_chart sample_db march = Ok (Response chart)
    /\ get_statistics sample_db march = Ok (Response stats)
    /\ json_get "total_items" stats = Some (JInt total)
    /\ List.length (counts_in chart) = 10%nat
    /\ tally (sold_in 3) sample_db total
    /\ tally (fun t => sold_in 3 t /\ off_ranges (price t)) sample_db missed
    /\ sumZ (counts_in chart) = total - missed
    /\ sumZ (counts_in chart) <= total.
Proof. apply (bar_chart_counts_sum sample_db march "March" 3); reflexivity. Defined.

(** ** The pie chart *)

Section Groups.

Lemma key_lt_trans a b c : key_lt a b -> key_lt b c -> key_lt a c.
Proof.
  unfold key_lt.
  change String.compare with OrderedTypeEx.String_as_OT.cmp.
  rewrite !OrderedTypeEx.String_as_OT.cmp_lt.
  apply OrderedTypeEx.String_as_OT.lt_trans.
Qed.

Lemma key_lt_neq a b : key_lt a b -> a <> b.
Proof.
  unfold key_lt.
  change String.compare with OrderedTypeEx.String_as_OT.cmp.
  rewrite OrderedTypeEx.String_as_OT.cmp_lt.
  apply OrderedTypeEx.String_as_OT.lt_not_eq.
Qed.

Lemma compare_refl a : String.compare a a = Eq.
Proof.
  change String.compare with OrderedTypeEx.String_as_OT.cmp.
  apply OrderedTypeEx.String_as_OT.cmp_eq. reflexivity.
Qed.

Lemma compare_gt a b : String.compare a b = Gt -> key_lt b a.
Proof.
  unfold key_lt. intros H. rewrite String.compare_antisym, H. reflexivity.
Qed.

Lemma bump_sum k groups :
  sumZ (map snd (bump k groups)) = sumZ (map snd groups) + 1.
Proof.
  unfold sumZ.
  induction groups as [|[k' n] rest IH]; cbn [bump]; [reflexivity|].
  destruct (String.compare k k'); cbn [map snd fold_right];
    rewrite ?IH; lia.
Qed.

Lemma bump_positive k groups :
  Forall (fun g => 0 < snd g) groups ->
  Forall (fun g => 0 < snd g) (bump k groups).
Proof.
  induction 1 as [|[k' n] rest Hn Hrest IH]; simpl.
  - repeat constructor.
  - simpl in Hn.
    destruct (String.compare k k'); repeat constructor; simpl;
      auto; lia.
Qed.

Lemma bump_keys_above a k groups :
  key_lt a k ->
  Forall (fun g => key_lt a (fst g)) groups ->
  Forall (fun g => key_lt a (fst g)) (bump k groups).
Proof.
  intros Hak. induction 1 as [|[k' n] rest Hk' Hrest IH]; simpl.
  - repeat constructor. exact Hak.
  - destruct (String.compare k k'); repeat constructor; auto.
Qed.

Lemma bump_ascending k groups : ascending groups -> ascending (bump k groups).
Proof.
  induction 1 as [|k' n rest Habove Hasc IH]; simpl.
  - repeat constructor.
  - destruct (String.compare k k') eqn:C.
    + constructor; assumption.
    + constructor; [|constructor; assumption].
      constructor; [exact C|].
      eapply Forall_impl; [|exact Habove].
      intros g Hg. exact (key_lt_trans _ _ _ C Hg).
    + constructor; [|exact IH].
      apply bump_keys_above; [apply compare_gt; exact C | exact Habove].
Qed.

Lemma bump_key_total c k groups :
  key_total c (bump k groups) = key_total c groups + b2z (String.eqb k c).
Proof.
  unfold key_total, sumZ.
  induction groups as [|[k' n] rest IH]; cbn [bump filter fst].
  - destruct (String.eqb k c); reflexivity.
  - destruct (String.compare k k') eqn:C; cbn [filter fst].
    + apply String.compare_eq_iff in C. subst k'.
      destruct (String.eqb k c); cbn [map snd fold_right b2z]; lia.
    + destruct (String.eqb k c), (String.eqb k' c);
        cbn [map snd fold_right b2z]; lia.
    + destruct (String.eqb k' c); cbn [map snd fold_right];
        rewrite IH; lia.
Qed.

(** In ascending groups, the number stored with a key is all that is
    counted under it. *)
Lemma ascending_key_total groups k n :
  ascending groups -> In (k, n) groups -> key_total k groups = n.
Proof.
  unfold key_total.
  induction 1 as [|k' n' rest Habove Hasc IH]; intros Hin; [destruct Hin|].
  simpl. destruct Hin as [Heq|Hin].
  - inversion Heq. subst k' n'. rewrite String.eqb_refl. simpl.
    rewrite filter_none; [simpl; lia|].
    intros g Hg. rewrite Forall_forall in Habove.
    apply String.eqb_neq. intro E.
    exact (key_lt_neq _ _ (Habove g Hg) (eq_sym E)).
  - assert (Hlt : key_lt k' k).
    { rewrite Forall_forall in Habove. exact (Habove _ Hin). }
    destruct (String.eqb k' k) eqn:E.
    + apply String.eqb_eq in E. exfalso. exact (key_lt_neq _ _ Hlt E).
    + apply IH. exact Hin.
Qed.

Lemma ascending_NoDup groups : ascending groups -> NoDup (map fst groups).
Proof.
  induction 1 as [|k n rest Habove Hasc IH]; simpl; constructor; [|exact IH].
  intros Hin. apply in_map_iff in Hin. destruct Hin as [g [Hg Hin]].
  rewrite Forall_forall in Habove.
  exact (key_lt_neq _ _ (Habove g Hin) (eq_sym Hg)).
Qed.

Variable col : Transaction -> string.

Lemma grouped_sum q groups :
  sumZ (map snd (grouped col q groups)) = sumZ (map snd groups) + count q.
Proof.
  unfold count. revert groups.
  induction q as [|t q IH]; intros groups.
  - simpl. lia.
  - change (grouped col (t :: q) groups)
      with (grouped col q (bump (col t) groups)).
    rewrite IH, bump_sum. simpl List.length. lia.
Qed.

Lemma grouped_positive q groups :
  Forall (fun g => 0 < snd g) groups ->
  Forall (fun g => 0 < snd g) (grouped col q groups).
Proof.
  revert groups. induction q as [|t q IH]; intros groups H.
  - exact H.
  - change (grouped col (t :: q) groups)
      with (grouped col q (bump (col t) groups)).
    apply IH. apply bump_positive. exact H.
Qed.

Lemma grouped_ascending q groups :
  ascending groups -> ascending (grouped col q groups).
Proof.
  revert groups. induction q as [|t q IH]; intros groups H.
  - exact H.
  - change (grouped col (t :: q) groups)
      with (grouped col q (bump (col t) groups)).
    apply IH. apply bump_ascending. exact H.
Qed.

Lemma grouped_key_total c q groups :
  key_total c (grouped col q groups)
  = key_total c groups + count (filter (fun t => String.eqb (col t) c) q).
Proof.
  revert groups. induction q as [|t q IH]; intros groups.
  - simpl. unfold count. simpl. lia.
  - rewrite count_filter_cons.
    change (grouped col (t :: q) groups)
      with (grouped col q (bump (col t) groups)).
    rewrite IH, bump_key_total. lia.
Qed.

End Groups.

Lemma filter_filter_and {A} (f g : A -> bool) (l : list A) :
  filter f (filter g l) = filter (fun x => g x && f x) l.
Proof.
  induction l as [|x l IH]; simpl; [reflexivity|].
  destruct (g x); simpl; [destruct (f x)|]; now rewrite IH.
Qed.

(** C7.  For a recognised month, the counts of /pie_chart add up to the
    [total_items] of /statistics; each category is listed once, with a
    positive count, the number of transactions of that month in that
    category: a category without a transaction in the month is not
    listed. *)
Theorem pie_chart_counts (db : Query) (args : Args) (m : string) (k : Z) :
  args_get args "month" = Some m ->
  strptime_B_month m = Ok k ->
  exists (groups : list (string * Z)) (stats : json) (total : Z),
    get_pie_chart db args
    = Ok (Response
            (JArr (map (fun '(c, n) =>
                          JObj [ ("category", JStr c); ("count", JInt n) ])
                       groups)))
    /\ get_statistics db args = Ok (Response stats)
    /\ json_get "total_items" stats = Some (JInt total)
    /\ sumZ (map snd groups) = total
    /\ NoDup (map fst groups)
    /\ Forall (fun '(c, n) =>
                 0 < n
                 /\ tally (fun t => sold_in k t /\ category t = c) db n)
              groups.
Proof.
  intros Hm Hk.
  rewrite (get_pie_chart_valid db args m k Hm Hk).
  rewrite (get_statistics_valid db args m k Hm Hk).
  set (rows := filter (in_month k) db).
  exists (group_by_count category rows). eexists. exists (count rows).
  assert (Hasc : ascending (group_by_count category rows)).
  { apply (grouped_ascending category rows []). constructor. }
  split; [reflexivity|]. split; [reflexivity|]. split; [reflexivity|].
  split.
  { exact (grouped_sum category rows []). }
  split.
  { apply ascending_NoDup. exact Hasc. }
  apply Forall_forall. intros [c n] Hin. split.
  - pose proof (grouped_positive category rows [] (Forall_nil _)) as Hpos.
    rewrite Forall_forall in Hpos. exact (Hpos _ Hin).
  - rewrite <- (ascending_key_total _ _ _ Hasc Hin).
    change (group_by_count category rows) with (grouped category rows []).
    rewrite (grouped_key_total category c rows []).
    unfold rows. rewrite filter_filter_and.
    change (key_total c []) with 0. rewrite Z.add_0_l.
    apply tally_filter. intros t.
    rewrite andb_true_iff, in_month_spec, String.eqb_eq. reflexivity.
Qed.

Lemma pie_chart_counts_witness :
  exists (groups : list (string * Z)) (stats : json) (total : Z),
    get_pie_chart sample_db march
    = Ok (Response
            (JArr (map (fun '(c, n) =>
                          JObj [ ("category", JStr c); ("count", JInt n) ])
                       groups)))
    /\ get_statistics sample_db march = Ok (Response stats)
    /\ json_get "total_items" stats = Some (JInt total)
    /\ sumZ (map snd groups) = total
    /\ NoDup (map fst groups)
    /\ Forall (fun '(c, n) =>
                 0 < n
                 /\ tally (fun t => sold_in 3 t /\ category t = c) sample_db n)
              groups.
Proof. apply (pie_chart_counts sample_db march "March" 3); reflexivity. Defined.

(** ** The listing *)

(** *** Executing the statement *)

Lemma holds_pure cs t :
  holds (map criterion cs) t = Ok (forallb (fun c => c t) cs).
Proof.
  induction cs as [|c cs IH]; [reflexivity|].
  cbn [map holds forallb]. unfold criterion at 1. cbn [bind].
  destruct (c t); [exact IH | reflexivity].
Qed.

Lemma holds_failing cs e t :
  holds (map criterion cs ++ @cons Clause (fun _ => Raise e) [])%list t
  = if forallb (fun c => c t) cs then Raise e else Ok false.
Proof.
  induction cs as [|c cs IH]; [reflexivity|].
  cbn [map app holds forallb]. unfold criterion at 1. cbn [bind].
  destruct (c t); [exact IH | reflexivity].
Qed.

(** A scan whose criteria cannot fail returns the window of the
    selected rows that OFFSET and LIMIT cut out. *)
Lemma scan_pure_limit cs rows :
  forall offset limit,
    0 <= limit ->
    scan (map criterion cs) rows offset limit
    = Ok (firstn (Z.to_nat limit)
                 (skipn (Z.to_nat offset) (filter_all cs rows))).
Proof.
  unfold filter_all.
  induction rows as [|t rows IH]; intros offset limit Hl.
  - cbn [scan filter]. now rewrite skipn_nil, firstn_nil.
  - cbn [scan]. destruct (Z.eqb_spec limit 0) as [E|Hne].
    + subst limit. reflexivity.
    + rewrite holds_pure. cbn [bind filter].
      destruct (forallb (fun c => c t) cs).
      * destruct (Z.ltb_spec 0 offset).
        -- rewrite IH by lia.
           replace (Z.to_nat offset) with (S (Z.to_nat (offset - 1))) by lia.
           reflexivity.
        -- rewrite IH by lia. cbn [bind].
           replace (Z.to_nat offset) with 0%nat by lia.
           replace (Z.to_nat limit) with (S (Z.to_nat (limit - 1))) by lia.
           reflexivity.
      * apply IH. exact Hl.
Qed.

Lemma scan_pure_all cs rows :
  forall offset limit,
    limit < 0 ->
    scan (map criterion cs) rows offset limit
    = Ok (skipn (Z.to_nat offset) (filter_all cs rows)).
Proof.
  unfold filter_all.
  induction rows as [|t rows IH]; intros offset limit Hl.
  - cbn [scan filter]. now rewrite skipn_nil.
  - cbn [scan]. destruct (Z.eqb_spec limit 0) as [E|Hne]; [lia|].
    rewrite holds_pure. cbn [bind filter].
    destruct (forallb (fun c => c t) cs).
    + destruct (Z.ltb_spec 0 offset).
      * rewrite IH by lia.
        replace (Z.to_nat offset) with (S (Z.to_nat (offset - 1))) by lia.
        reflexivity.
      * rewrite IH by lia. cbn [bind].
        replace (Z.to_nat offset) with 0%nat by lia.
        reflexivity.
    + apply IH. exact Hl.
Qed.

(** A scan whose last criterion fails raises as soon as a row passes
    the criteria before it. *)
Lemma scan_failing cs e rows :
  forall offset limit,
    limit <> 0 ->
    scan (map criterion cs ++ @cons Clause (fun _ => Raise e) [])%list rows offset limit
    = match filter_all cs rows with
      | [] => Ok []
      | _ :: _ => Raise e
      end.
Proof.
  unfold filter_all.
  induction rows as [|t rows IH]; intros offset limit Hl.
  - reflexivity.
  - cbn [scan]. destruct (Z.eqb_spec limit 0) as [E|_]; [contradiction|].
    rewrite holds_failing. cbn [filter].
    destruct (forallb (fun c => c t) cs); cbn [bind].
    + reflexivity.
    + apply IH. exact Hl.
Qed.

Lemma int64_bounds n o :
  0 <= n -> 0 <= o ->
  Sql.int64 n && Sql.int64 o = true
  <-> n <= Sql.max_int64 /\ o <= Sql.max_int64.
Proof.
  intros Hn Ho. unfold Sql.int64, Sql.max_int64.
  rewrite !andb_true_iff, !Z.leb_le. lia.
Qed.

(** The pages of a statement whose criteria cannot fail. *)
Lemma paginate_items_pure cs rows page n :
  paginate_items (mkSelect rows (map criterion cs)) page n false
  = (let p := if page <? 1 then 1 else page in
     let m := if n <? 0 then 20 else n in
     if Sql.int64 m && Sql.int64 ((p - 1) * m)
     then Ok (slice (filter_all cs rows) p m)
     else Raise OverflowError).
Proof.
  unfold paginate_items. cbv zeta.
  set (p := if page <? 1 then 1 else page).
  set (m := if n <? 0 then 20 else n).
  assert (Hm : 0 <= m) by (unfold m; destruct (Z.ltb_spec n 0); lia).
  replace (if page <? 1 then Ok 1 else Ok page) with (@Ok Z p)
    by (unfold p; destruct (page <? 1); reflexivity).
  replace (if n <? 0 then Ok 20 else Ok n) with (@Ok Z m)
    by (unfold m; destruct (n <? 0); reflexivity).
  cbn [bind]. unfold limit_offset_all. cbn [clauses scanned].
  destruct (Sql.int64 m && Sql.int64 ((p - 1) * m)); [|reflexivity].
  rewrite scan_pure_limit by exact Hm. cbn [bind].
  fold (slice (filter_all cs rows) p m).
  rewrite andb_false_r.
  unfold query_count. cbn [clauses scanned].
  rewrite scan_pure_all by lia. cbn [bind].
  destruct (slice (filter_all cs rows) p m); cbn [bind];
    destruct (_ && _); reflexivity.
Qed.

(** The pages of a statement whose last criterion fails. *)
Lemma paginate_items_failing cs e rows page n :
  paginate_items (mkSelect rows (map criterion cs ++ @cons Clause (fun _ => Raise e) [])%list)
                 page n false
  = (let p := if page <? 1 then 1 else page in
     let m := if n <? 0 then 20 else n in
     if Sql.int64 m && Sql.int64 ((p - 1) * m)
     then match filter_all cs rows with
          | [] => Ok []
          | _ :: _ => Raise e
          end
     else Raise OverflowError).
Proof.
  unfold paginate_items. cbv zeta.
  set (p := if page <? 1 then 1 else page).
  set (m := if n <? 0 then 20 else n).
  assert (Hm : 0 <= m) by (unfold m; destruct (Z.ltb_spec n 0); lia).
  replace (if page <? 1 then Ok 1 else Ok page) with (@Ok Z p)
    by (unfold p; destruct (page <? 1); reflexivity).
  replace (if n <? 0 then Ok 20 else Ok n) with (@Ok Z m)
    by (unfold m; destruct (n <? 0); reflexivity).
  cbn [bind]. unfold limit_offset_all, query_count. cbn [clauses scanned].
  destruct (Sql.int64 m && Sql.int64 ((p - 1) * m)); [|reflexivity].
  rewrite (scan_failing cs e rows 0 (-1)) by lia.
  destruct (Z.eq_dec m 0) as [E|Hne].
  - rewrite E.
    replace (scan (map criterion cs ++ @cons Clause (fun _ => Raise e) [])%list rows
                  ((p - 1) * 0) 0)
      with (@Ok (list Transaction) [])
      by (destruct rows; reflexivity).
    cbn [bind List.length]. rewrite andb_false_r.
    change (Z.of_nat 0 <? 0) with false. rewrite andb_false_r.
    destruct (filter_all cs rows); reflexivity.
  - rewrite (scan_failing cs e rows _ m) by exact Hne.
    destruct (filter_all cs rows); [|reflexivity].
    cbn [bind]. rewrite andb_false_r.
    destruct (_ && _); reflexivity.
Qed.

(** *** The listing, step by step *)

Lemma filter_all_nil (q : Query) : filter_all [] q = q.
Proof.
  unfold filter_all. apply forallb_filter_id. apply forallb_forall.
  reflexivity.
Qed.

Lemma filter_all_2 c1 c2 (q : Query) :
  filter_all [c1; c2] q = filter c2 (filter c1 q).
Proof.
  unfold filter_all. rewrite filter_filter_and. apply filter_ext.
  intros t. simpl. now rewrite andb_true_r.
Qed.

Lemma length_append (a b : string) :
  String.length (a ++ b) = (String.length a + String.length b)%nat.
Proof. induction a as [|c a IH]; simpl; [reflexivity | now rewrite IH]. Qed.

(** A pattern fits when the search text has 49998 bytes at most. *)
Lemma like_pattern_fits_spec s :
  Sql.like_pattern_fits ("%" ++ s ++ "%") = true
  <-> Z.of_nat (String.length s) + 2 <= 50000.
Proof.
  unfold Sql.like_pattern_fits, Sql.like_pattern_limit.
  rewrite N.leb_le, !length_append. cbn [String.length]. lia.
Qed.

(** The listing in five steps: the two integers, the month, the range
    of the driver's integers, the search.  A search text that is too
    long fails the query as soon as a row of the month is read. *)
Lemma get_transactions_steps (db : Query) (args : Args) :
  get_transactions db args
  = (page <- int_arg args "page" 1 ;;
     per_page <- int_arg args "per_page" 10 ;;
     by_month <- month_set db args ;;
     let p := if page <? 1 then 1 else page in
     let n := if per_page <? 0 then 20 else per_page in
     if Sql.int64 n && Sql.int64 ((p - 1) * n)
     then if match args_get args "search" with
             | Some s => Sql.like_pattern_fits ("%" ++ s ++ "%")
             | None => true
             end
          then Ok (Response
                     (JArr (map transaction_json
                                (slice (search_set by_month args) p n))))
          else match by_month with
               | [] => Ok (Response (JArr []))
               | _ :: _ => Raise OperationalError
               end
     else Raise OverflowError).
Proof.
  unfold get_transactions, args_get_default, month_set, search_set.
  destruct (int_arg args "page" 1) as [page|e]; cbn [bind]; [|reflexivity].
  destruct (int_arg args "per_page" 10) as [n|e]; cbn [bind]; [|reflexivity].
  assert (Hpure : forall cs,
             (transactions <- paginate_items (mkSelect db (map criterion cs))
                                             page n false ;;
              Ok (Response (JArr (map transaction_json transactions))))
             = (let p := if page <? 1 then 1 else page in
                let m := if n <? 0 then 20 else n in
                if Sql.int64 m && Sql.int64 ((p - 1) * m)
                then Ok (Response
                           (JArr (map transaction_json
                                      (slice (filter_all cs db) p m))))
                else Raise OverflowError)).
  { intros cs. rewrite paginate_items_pure. cbv zeta.
    destruct (_ && _); reflexivity. }
  assert (Hfail : forall cs,
             (transactions <- paginate_items
                                (mkSelect db (map criterion cs
                                              ++ @cons Clause (fun _ => Raise OperationalError) [])%list)
                                page n false ;;
              Ok (Response (JArr (map transaction_json transactions))))
             = (let p := if page <? 1 then 1 else page in
                let m := if n <? 0 then 20 else n in
                if Sql.int64 m && Sql.int64 ((p - 1) * m)
                then match filter_all cs db with
                     | [] => Ok (Response (JArr []))
                     | _ :: _ => Raise OperationalError
                     end
                else Raise OverflowError)).
  { intros cs. rewrite paginate_items_failing. cbv zeta.
    destruct (_ && _); [|reflexivity].
    destruct (filter_all cs db); reflexivity. }
  cbv zeta in Hpure, Hfail.
  destruct (args_get args "month") as [[|c m]|]; cbn [truthy bind];
    [ | destruct (strptime_B_month (String c m)) as [k|e]; cbn [bind];
        [|reflexivity] | ];
    (destruct (args_get args "search") as [[|c' s]|]; cbn [truthy];
     [ | unfold search_clause;
         destruct (Sql.like_pattern_fits ("%" ++ String c' s ++ "%")) | ]);
    unfold Transaction_query, query_filter; cbn [scanned clauses app];
    change (Sql.like_pattern_fits ("%" ++ "" ++ "%")) with true;
    first [ pose proof (Hpure []) as E; cbn [map app] in E; rewrite E
          | pose proof (Hfail []) as E; cbn [map app] in E; rewrite E
          | match goal with
            | |- context [mkSelect db (criterion ?a :: _)] =>
                first [ pose proof (Hpure [a]) as E; cbn [map app] in E;
                        rewrite E
                      | pose proof (Hfail [a]) as E; cbn [map app] in E;
                        rewrite E
                      | match goal with
                        | |- context [mkSelect db [_; criterion ?b]] =>
                            pose proof (Hpure [a; b]) as E;
                            cbn [map app] in E; rewrite E
                        end ]
            end ];
    rewrite ?filter_all_nil, ?filter_all_1, ?filter_all_2; reflexivity.
Qed.

Lemma search_fits_true args :
  search_fits args ->
  match args_get args "search" with
  | Some s => Sql.like_pattern_fits ("%" ++ s ++ "%")
  | None => true
  end = true.
Proof.
  unfold search_fits. intros H.
  destruct (args_get args "search") as [s|]; [|reflexivity].
  apply like_pattern_fits_spec. apply H. reflexivity.
Qed.

(** The listing of a request whose search text fits. *)
Lemma get_transactions_fits (db : Query) (args : Args) :
  search_fits args ->
  get_transactions db args
  = (page <- int_arg args "page" 1 ;;
     per_page <- int_arg args "per_page" 10 ;;
     rows <- filtered_set db args ;;
     let p := if page <? 1 then 1 else page in
     let n := if per_page <? 0 then 20 else per_page in
     if Sql.int64 n && Sql.int64 ((p - 1) * n)
     then Ok (Response (JArr (map transaction_json (slice rows p n))))
     else Raise OverflowError).
Proof.
  intros Hfits. rewrite get_transactions_steps, (search_fits_true args Hfits).
  unfold filtered_set.
  destruct (int_arg args "page" 1) as [page|e]; cbn [bind]; [|reflexivity].
  destruct (int_arg args "per_page" 10) as [n|e]; cbn [bind]; [|reflexivity].
  destruct (month_set db args) as [by_month|e]; reflexivity.
Qed.

Lemma slice_length (rows : Query) (page n : Z) :
  1 <= page -> 0 <= n ->
  Z.of_nat (List.length (slice rows page n))
  = Z.min n (Z.max 0 (count rows - (page - 1) * n)).
Proof.
  intros Hp Hn. unfold slice, count.
  rewrite length_firstn, length_skipn. nia.
Qed.

Lemma slice_contiguous (rows : Query) (page n : Z) :
  exists before after : Query,
    rows = (before ++ slice rows page n ++ after)%list
    /\ List.length before
       = Nat.min (Z.to_nat ((page - 1) * n)) (List.length rows).
Proof.
  exists (firstn (Z.to_nat ((page - 1) * n)) rows).
  exists (skipn (Z.to_nat n) (skipn (Z.to_nat ((page - 1) * n)) rows)).
  unfold slice. rewrite !firstn_skipn. split; [reflexivity|].
  apply length_firstn.
Qed.

(** C5 fails beyond 64 bits: the page 2^63 + 1 of one row lies past the
    last page of the sample table, whose filtered result set has four
    rows, and the answer is not the empty array: the driver refuses the
    offset 2^63 with [OverflowError], and the client receives status
    500. *)
Lemma listing_page_counterexample :
  int_arg far_page "page" 1 = Ok 9223372036854775809
  /\ int_arg far_page "per_page" 10 = Ok 1
  /\ filtered_set sample_db far_page = Ok sample_db
  /\ count sample_db <= (9223372036854775809 - 1) * 1
  /\ get_transactions sample_db far_page = Raise OverflowError
  /\ http_status (get_transactions sample_db far_page) = 500.
Proof.
  split; [vm_compute; reflexivity|]. split; [vm_compute; reflexivity|].
  split; [reflexivity|]. split; [vm_compute; discriminate|].
  split; vm_compute; reflexivity.
Qed.

(** C5, amended.  When the page number [page] is at least 1 and the
    page size is [n], both as the request gives them or by default, and
    [n] and the offset [(page - 1) * n] are at most 2^63 - 1 and the
    search text has at most 49998 bytes, /transactions answers with the
    rows of the filtered result set from that offset on, [n] of them at
    most, in their order: min(n, max(0, M - (page - 1) * n)) rows for a
    result set of M rows; a page past the last one is answered with the
    empty array, not with an error.  When [n] or the offset is larger,
    the listing raises [OverflowError], a server error. *)
Theorem listing_page (db : Query) (args : Args) (page n : Z) (rows : Query) :
  int_arg args "page" 1 = Ok page ->
  int_arg args "per_page" 10 = Ok n ->
  1 <= page -> 0 <= n ->
  search_fits args ->
  filtered_set db args = Ok rows ->
  (n <= Sql.max_int64 -> (page - 1) * n <= Sql.max_int64 ->
   get_transactions db args
   = Ok (Response (JArr (map transaction_json (slice rows page n))))
   /\ Z.of_nat (List.length (slice rows page n))
      = Z.min n (Z.max 0 (count rows - (page - 1) * n))
   /\ (exists before after : Query,
          rows = (before ++ slice rows page n ++ after)%list
          /\ List.length before
             = Nat.min (Z.to_nat ((page - 1) * n)) (List.length rows))
   /\ (count rows <= (page - 1) * n ->
       get_transactions db args = Ok (Response (JArr []))
       /\ http_status (get_transactions db args) = 200))
  /\ (Sql.max_int64 < n \/ Sql.max_int64 < (page - 1) * n ->
      get_transactions db args = Raise OverflowError
      /\ http_status (get_transactions db args) = 500).
Proof.
  intros Hpage Hsize Hp Hn Hfits Hrows.
  assert (E : get_transactions db args
              = if Sql.int64 n && Sql.int64 ((page - 1) * n)
                then Ok (Response (JArr (map transaction_json
                                             (slice rows page n))))
                else Raise OverflowError).
  { rewrite (get_transactions_fits db args Hfits), Hpage, Hsize, Hrows.
    cbn [bind]. cbv zeta.
    destruct (Z.ltb_spec page 1); [lia|].
    destruct (Z.ltb_spec n 0); [lia|]. reflexivity. }
  assert (Ho : 0 <= (page - 1) * n) by nia.
  pose proof (int64_bounds n ((page - 1) * n) Hn Ho) as Hb.
  split.
  - intros Hn64 Ho64. rewrite E.
    rewrite (proj2 Hb (conj Hn64 Ho64)).
    split; [reflexivity|].
    split; [apply slice_length; assumption|].
    split; [apply slice_contiguous|].
    intros Hpast.
    pose proof (slice_length rows page n Hp Hn) as Hlen.
    destruct (slice rows page n) as [|t s].
    + split; reflexivity.
    + simpl List.length in Hlen. lia.
  - intros Hover. rewrite E. clear Hb.
    destruct (Sql.int64 n && Sql.int64 ((page - 1) * n)) eqn:B.
    + apply (int64_bounds n _ Hn Ho) in B. lia.
    + split; reflexivity.
Qed.

Lemma listing_page_witness :
  (2 <= Sql.max_int64 -> (2 - 1) * 2 <= Sql.max_int64 ->
   get_transactions sample_db
                    [("month", "March"); ("page", "2"); ("per_page", "2")]
   = Ok (Response (JArr (map transaction_json
                             (slice (filter (in_month 3) sample_db) 2 2))))
   /\ Z.of_nat (List.length (slice (filter (in_month 3) sample_db) 2 2))
      = Z.min 2 (Z.max 0 (count (filter (in_month 3) sample_db) - (2 - 1) * 2))
   /\ (exists before after : Query,
          filter (in_month 3) sample_db
          = (before ++ slice (filter (in_month 3) sample_db) 2 2 ++ after)%list
          /\ List.length before
             = Nat.min (Z.to_nat ((2 - 1) * 2))
                       (List.length (filter (in_month 3) sample_db)))
   /\ (count (filter (in_month 3) sample_db) <= (2 - 1) * 2 ->
       get_transactions sample_db
                        [("month", "March"); ("page", "2"); ("per_page", "2")]
       = Ok (Response (JArr []))
       /\ http_status (get_transactions sample_db
                         [("month", "March"); ("page", "2"); ("per_page", "2")])
          = 200))
  /\ (Sql.max_int64 < 2 \/ Sql.max_int64 < (2 - 1) * 2 ->
      get_transactions sample_db
                       [("month", "March"); ("page", "2"); ("per_page", "2")]
      = Raise OverflowError
      /\ http_status (get_transactions sample_db
                        [("month", "March"); ("page", "2"); ("per_page", "2")])
         = 500).
Proof.
  apply (listing_page sample_db
           [("month", "March"); ("page", "2"); ("per_page", "2")] 2 2
           (filter (in_month 3) sample_db));
    try reflexivity; try lia.
  intros s H. vm_compute in H. discriminate H.
Defined.

(** A search text of 49999 bytes fails the listing as soon as a row is
    read, also for a page of no rows, whose total is counted; it does
    not fail on a month without rows. *)
Example listing_long_search :
  get_transactions sample_db [("search", long_text)] = Raise OperationalError
  /\ get_transactions sample_db [("search", long_text); ("per_page", "0")]
     = Raise OperationalError
  /\ get_transactions sample_db [("search", long_text); ("month", "May")]
     = Ok (Response (JArr [])).
Proof. repeat split; vm_compute; reflexivity. Qed.

(** The page of the witness: the third March row. *)
Example listing_page_two :
  get_transactions sample_db
                   [("month", "March"); ("page", "2"); ("per_page", "2")]
  = Ok (Response (JArr [transaction_json ring])).
Proof. vm_compute. reflexivity. Qed.

(** ** Unrecognised month names *)

Lemma int_raises_ValueError s e : Py.int s = Raise e -> e = ValueError.
Proof.
  unfold Py.int.
  destruct (match strip _ with
            | [] => _ | _ :: _ => _ end) as [neg ds].
  destruct (int_digits ds 0 false);
    [destruct (_ <=? _)%nat|]; intros H; inversion H; reflexivity.
Qed.

Lemma int_arg_raises_ValueError args key d e :
  int_arg args key d = Raise e -> e = ValueError.
Proof.
  unfold int_arg. destruct (args_get args key).
  - apply int_raises_ValueError.
  - discriminate.
Qed.

Lemma strptime_raises_ValueError m :
  (forall k, strptime_B_month m <> Ok k) -> strptime_B_month m = Raise ValueError.
Proof.
  intros H. unfold strptime_B_month in *.
  destruct (truthy m); [|reflexivity].
  destruct (index_from (lower m) f_month 0) as [i|]; [|reflexivity].
  exfalso. exact (H i eq_refl).
Qed.

Section UnknownMonth.

Variables (db : Query) (args : Args) (m : string).
Hypothesis month_given : args_get args "month" = Some m.
Hypothesis month_nonempty : m <> "".
Hypothesis month_unknown : forall k, strptime_B_month m <> Ok k.

Lemma unknown_truthy : truthy m = true.
Proof. destruct m; [contradiction | reflexivity]. Qed.

Lemma get_transactions_unknown : get_transactions db args = Raise ValueError.
Proof.
  unfold get_transactions, args_get_default.
  destruct (int_arg args "page" 1) as [page|e] eqn:Hp; cbn [bind].
  2:{ now rewrite (int_arg_raises_ValueError _ _ _ _ Hp). }
  destruct (int_arg args "per_page" 10) as [n|e] eqn:Hn; cbn [bind].
  2:{ now rewrite (int_arg_raises_ValueError _ _ _ _ Hn). }
  rewrite month_given, unknown_truthy.
  rewrite (strptime_raises_ValueError m month_unknown). reflexivity.
Qed.

Lemma get_statistics_unknown : get_statistics db args = Raise ValueError.
Proof.
  unfold get_statistics. rewrite month_given. cbn [truthy_opt the_str].
  rewrite unknown_truthy, (strptime_raises_ValueError m month_unknown).
  reflexivity.
Qed.

Lemma get_bar_chart_unknown : get_bar_chart db args = Raise ValueError.
Proof.
  unfold get_bar_chart. rewrite month_given. cbn [truthy_opt the_str].
  rewrite unknown_truthy, (strptime_raises_ValueError m month_unknown).
  reflexivity.
Qed.

Lemma get_pie_chart_unknown : get_pie_chart db args = Raise ValueError.
Proof.
  unfold get_pie_chart. rewrite month_given. cbn [truthy_opt the_str].
  rewrite unknown_truthy, (strptime_raises_ValueError m month_unknown).
  reflexivity.
Qed.

Lemma get_combined_data_unknown : get_combined_data db args = Raise ValueError.
Proof.
  unfold get_combined_data. rewrite month_given. cbn [truthy_opt].
  rewrite unknown_truthy. cbn [negb].
  rewrite get_transactions_unknown. reflexivity.
Qed.

End UnknownMonth.

(** C3 fails: "Smarch" is not a month name, and /statistics, like the
    other four endpoints, lets the [ValueError] of [strptime] escape;
    the client receives status 500 and no JSON document, not a 400. *)
Lemma unknown_month_counterexample :
  strptime_B_month "Smarch" = Raise ValueError
  /\ map (fun view => http_status (view sample_db [("month", "Smarch")]))
         all_views
     = [500; 500; 500; 500; 500]
  /\ map (fun view => http_json (view sample_db [("month", "Smarch")]))
         all_views
     = [None; None; None; None; None].
Proof. repeat split; reflexivity. Qed.

(** C3, amended.  For every non-empty [month] value that is not a month
    name, each of /transactions, /statistics, /bar_chart, /pie_chart and
    /combined_data raises [ValueError]: the client receives status 500
    (a server error) without a JSON document; no view answers with a
    result computed as if no transaction matched. *)
Theorem unknown_month_is_server_error
        (db : Query) (args : Args) (m : string) :
  args_get args "month" = Some m ->
  m <> "" ->
  (forall k, strptime_B_month m <> Ok k) ->
  Forall (fun view =>
            view db args = Raise ValueError
            /\ http_status (view db args) = 500
            /\ http_json (view db args) = None)
         all_views.
Proof.
  intros Hm Hne Hunk. unfold all_views.
  repeat apply Forall_cons; try apply Forall_nil.
  - rewrite (get_transactions_unknown db args m Hm Hne Hunk).
    repeat split; reflexivity.
  - rewrite (get_statistics_unknown db args m Hm Hne Hunk).
    repeat split; reflexivity.
  - rewrite (get_bar_chart_unknown db args m Hm Hne Hunk).
    repeat split; reflexivity.
  - rewrite (get_pie_chart_unknown db args m Hm Hne Hunk).
    repeat split; reflexivity.
  - rewrite (get_combined_data_unknown db args m Hm Hne Hunk).
    repeat split; reflexivity.
Qed.

Lemma unknown_month_is_server_error_witness :
  Forall (fun view =>
            view sample_db [("month", "Smarch")] = Raise ValueError
            /\ http_status (view sample_db [("month", "Smarch")]) = 500
            /\ http_json (view sample_db [("month", "Smarch")]) = None)
         all_views.
Proof.
  apply (unknown_month_is_server_error sample_db [("month", "Smarch")] "Smarch").
  - reflexivity.
  - discriminate.
  - intros k. discriminate.
Defined.

(** ** The combined report *)






(** ** Seeding *)

(** C9.  On a table that holds at least one row, [setup] changes
    nothing: it returns without an exception, the table has the same
    rows, and no request for the feed has been made, whatever the
    network and the date parser would have answered.  Starting again any
    number of times therefore leaves the state as it is. *)
Theorem setup_on_populated_store
        (http_get_json : string -> result (list item))
        (parser_parse_date : string -> result date)
        (w : World) :
  table w <> [] ->
  setup http_get_json parser_parse_date w = (w, Ok tt)
  /\ table (fst (setup http_get_json parser_parse_date w)) = table w
  /\ count (table (fst (setup http_get_json parser_parse_date w)))
     = count (table w)
  /\ http_log (fst (setup http_get_json parser_parse_date w)) = http_log w
  /\ forall starts : nat,
       Nat.iter starts
                (fun s => fst (setup http_get_json parser_parse_date s)) w
       = w.
Proof.
  intros Hrows.
  assert (E : setup http_get_json parser_parse_date w = (w, Ok tt)).
  { unfold setup, create_all, first.
    destruct (table w) as [|t q] eqn:Ht; [contradiction|]. reflexivity. }
  rewrite E. repeat split.
  intros starts. induction starts as [|i IH]; simpl.
  - reflexivity.
  - rewrite IH, E. reflexivity.
Qed.

Lemma setup_on_populated_store_witness :
  setup sample_http sample_parser (mkWorld sample_db []) = (mkWorld sample_db [], Ok tt)
  /\ table (fst (setup sample_http sample_parser (mkWorld sample_db [])))
     = sample_db
  /\ count (table (fst (setup sample_http sample_parser (mkWorld sample_db []))))
     = count sample_db
  /\ http_log (fst (setup sample_http sample_parser (mkWorld sample_db []))) = []
  /\ forall starts : nat,
       Nat.iter starts
                (fun s => fst (setup sample_http sample_parser s))
                (mkWorld sample_db [])
       = mkWorld sample_db [].
Proof.
  apply (setup_on_populated_store sample_http sample_parser
           (mkWorld sample_db [])).
  discriminate.
Defined.


(** * Further properties of the code *)

(** ** Seeding *)










(** A date that does not parse stops the loop with the exception. *)
Lemma add_all_unparsed parse data session it e :
  In it data ->
  parse (item_dateOfSale it) = Raise e ->
  exists e', add_all parse data session = Raise e'.
Proof.
  revert session. induction data as [|it0 data IH]; intros session Hin He.
  - destruct Hin.
  - simpl. destruct (parse (item_dateOfSale it0)) as [d|e0] eqn:E0; cbn [bind].
    + destruct Hin as [Heq|Hin].
      * subst it0. congruence.
      * apply IH; assumption.
    + exists e0. reflexivity.
Qed.





(** On a table whose only id is negative, the new ids follow it: they
    do not start from 1. *)
Example seed_data_negative_id :
  map id (table (fst (seed_data sample_http sample_parser
                        (mkWorld [mkTransaction (-5) "Mug" "ceramic" 3 "home"
                                                (mkDate 2022 3 5)] []))))
  = [-5; -4; -3].
Proof. reflexivity. Qed.

(** X2.  [seed_data] is all or nothing: it logs exactly one request,
    and when it raises (the fetch fails or a date does not parse) the
    table is left exactly as it was; it raises whenever the fetch
    raises or some item's date does not parse. *)
Theorem seed_data_all_or_nothing
        (http_get_json : string -> result (list item))
        (parser_parse_date : string -> result date)
        (w : World) :
  http_log (fst (seed_data http_get_json parser_parse_date w))
  = (http_log w ++ [seed_url])%list
  /\ (snd (seed_data http_get_json parser_parse_date w) <> Ok tt ->
      table (fst (seed_data http_get_json parser_parse_date w)) = table w)
  /\ (forall e, http_get_json seed_url = Raise e ->
                snd (seed_data http_get_json parser_parse_date w) = Raise e)
  /\ (forall data it e,
         http_get_json seed_url = Ok data ->
         In it data ->
         parser_parse_date (item_dateOfSale it) = Raise e ->
         exists e', snd (seed_data http_get_json parser_parse_date w) = Raise e').
Proof.
  unfold seed_data.
  destruct (http_get_json seed_url) as [data|e0] eqn:Hfetch; cbn [bind].
  - destruct (add_all parser_parse_date data []) as [session|e1] eqn:Hadd;
      cbn [fst snd http_log table].
    + split; [reflexivity|]. split; [intros H; now elim H|].
      split; [discriminate|].
      intros data' it e Hd Hin He. inversion Hd. subst data'.
      destruct (add_all_unparsed parser_parse_date data [] it e Hin He) as [e' He'].
      congruence.
    + split; [reflexivity|]. split; [reflexivity|].
      split; [discriminate|].
      intros. exists e1. reflexivity.
  - cbn [fst snd http_log table].
    split; [reflexivity|]. split; [reflexivity|].
    split; [intros e He; inversion He; reflexivity|].
    discriminate.
Qed.

(** A failed seeding, on the sample data: nothing of the feed is kept,
    not even the item that came before the bad one. *)
Example seed_data_bad_feed :
  seed_data bad_http sample_parser (mkWorld [] [])
  = (mkWorld [] [seed_url], Raise ValueError).
Proof. reflexivity. Qed.



(** X4.  A start that adds no row (the feed is empty, the fetch fails
    or a date does not parse) leaves the table empty, so the next start
    requests the feed again: after [n] such starts on an empty table,
    [n] requests have been logged. *)
Theorem setup_retries_while_empty
        (http_get_json : string -> result (list item))
        (parser_parse_date : string -> result date)
        (w : World) (n : nat) :
  table w = [] ->
  (http_get_json seed_url = Ok []
   \/ snd (seed_data http_get_json parser_parse_date w) <> Ok tt) ->
  Nat.iter n (fun s => fst (setup http_get_json parser_parse_date s)) w
  = mkWorld [] (http_log w ++ repeat seed_url n)%list.
Proof.
  intros Hempty Hnone.
  assert (Hstep : forall log,
             fst (setup http_get_json parser_parse_date (mkWorld [] log))
             = mkWorld [] (log ++ [seed_url])%list).
  { intros log. unfold setup, create_all, first. cbn [table hd_error].
    unfold seed_data in *. cbn [table http_log] in *.
    destruct (http_get_json seed_url) as [data|e] eqn:Hfetch; cbn [bind] in *.
    - destruct (add_all parser_parse_date data []) as [session|e1] eqn:Hadd.
      + destruct Hnone as [Hnil|Hfail].
        * inversion Hnil. subst data. simpl in Hadd. inversion Hadd.
          reflexivity.
        * exfalso. apply Hfail. reflexivity.
      + reflexivity.
    - reflexivity. }
  destruct w as [tb log]. cbn [table http_log] in *. subst tb.
  induction n as [|n IH].
  - simpl. now rewrite app_nil_r.
  - rewrite Nat.iter_succ, IH, Hstep. f_equal.
    rewrite <- app_assoc. f_equal.
    change (seed_url :: repeat seed_url n) with (repeat seed_url (S n)).
    symmetry. apply repeat_cons.
Qed.

Lemma setup_retries_while_empty_witness :
  Nat.iter 3 (fun s => fst (setup bad_http sample_parser s)) (mkWorld [] [])
  = mkWorld [] ([] ++ repeat seed_url 3)%list.
Proof.
  apply (setup_retries_while_empty bad_http sample_parser (mkWorld [] []) 3).
  - reflexivity.
  - right. discriminate.
Defined.

(** ** Request parameters *)

Lemma args_get_head k v rest : args_get ((k, v) :: rest) k = Some v.
Proof. unfold args_get. simpl. now rewrite String.eqb_refl. Qed.

Lemma args_get_other k k' v rest :
  k <> k' -> args_get ((k', v) :: rest) k = args_get rest k.
Proof.
  intros Hne. unfold args_get. simpl.
  destruct (String.eqb_spec k k'); [contradiction | reflexivity].
Qed.

(** X5.  An empty [month] value is answered like a missing one: each of
    /statistics, /bar_chart, /pie_chart and /combined_data answers with
    the error body and status 400 whatever the table holds, and
    /transactions lists as if no month had been given. *)
Theorem empty_month_is_no_month (db : Query) (rest : Args) :
  Forall (fun view =>
            view db (("month", "") :: rest) = Ok month_required
            /\ http_status (view db (("month", "") :: rest)) = 400)
         month_views
  /\ (args_get rest "month" = None ->
      get_transactions db (("month", "") :: rest) = get_transactions db rest).
Proof.
  split.
  - unfold month_views; repeat constructor;
      unfold get_statistics, get_bar_chart, get_pie_chart, get_combined_data;
      rewrite args_get_head; reflexivity.
  - intros Hnone.
    unfold get_transactions, args_get_default, int_arg.
    rewrite args_get_head, Hnone.
    rewrite !args_get_other by discriminate. reflexivity.
Qed.

(** ** Outcomes of the listing *)

Lemma strptime_error m e : strptime_B_month m = Raise e -> e = ValueError.
Proof.
  unfold strptime_B_month. destruct (truthy m).
  - destruct (index_from (lower m) f_month 0); intros H; inversion H.
    reflexivity.
  - intros H. inversion H. reflexivity.
Qed.

(** The month of a listing fails on a non-empty value that is not a
    month name, with [ValueError], and only then. *)
Lemma month_set_raises db args e :
  month_set db args = Raise e
  <-> e = ValueError
      /\ exists m, args_get args "month" = Some m /\ m <> ""
                   /\ strptime_B_month m = Raise ValueError.
Proof.
  unfold month_set. destruct (args_get args "month") as [[|c m]|].
  - split; [discriminate|]. intros [_ (m & H & Hne & _)].
    inversion H. subst m. contradiction.
  - destruct (strptime_B_month (String c m)) as [k|e'] eqn:Hk; cbn [bind].
    + split; [discriminate|]. intros [_ (m' & H & _ & Hr)].
      inversion H. subst m'. congruence.
    + pose proof (strptime_error _ _ Hk). subst e'. split.
      * intros H. inversion H. split; [reflexivity|].
        exists (String c m). split; [reflexivity|].
        split; [discriminate | exact Hk].
      * intros [He _]. now rewrite He.
  - split; [discriminate|]. intros [_ (m & H & _)]. discriminate.
Qed.

Lemma page_size_nonneg n : 0 <= page_size n.
Proof. unfold page_size. destruct (Z.ltb_spec n 0); lia. Qed.

Lemma page_number_pos page : 1 <= page_number page.
Proof. unfold page_number. destruct (Z.ltb_spec page 1); lia. Qed.

(** The integers of a page that the driver refuses. *)
Lemma page_overflow page n :
  Sql.int64 (page_size n) && Sql.int64 ((page_number page - 1) * page_size n)
  = false
  <-> Sql.max_int64 < page_size n
      \/ Sql.max_int64 < (page_number page - 1) * page_size n.
Proof.
  pose proof (page_size_nonneg n) as Hn.
  pose proof (page_number_pos page) as Hp.
  assert (Ho : 0 <= (page_number page - 1) * page_size n) by nia.
  pose proof (int64_bounds _ _ Hn Ho) as Hb.
  destruct (Sql.int64 (page_size n)
            && Sql.int64 ((page_number page - 1) * page_size n)).
  - split; [discriminate|]. intros H.
    destruct Hb as [Hb _]. specialize (Hb eq_refl). lia.
  - split; [|reflexivity]. intros _.
    destruct (Z.le_gt_cases (page_size n) Sql.max_int64) as [H1|H1];
      [|left; lia].
    destruct (Z.le_gt_cases ((page_number page - 1) * page_size n)
                            Sql.max_int64) as [H2|H2]; [|right; lia].
    destruct Hb as [_ Hb]. specialize (Hb (conj H1 H2)). discriminate.
Qed.

(** A search text that is too long. *)
Lemma search_too_long args :
  match args_get args "search" with
  | Some s => Sql.like_pattern_fits ("%" ++ s ++ "%")
  | None => true
  end = false
  <-> exists s, args_get args "search" = Some s
                /\ 50000 < Z.of_nat (String.length s) + 2.
Proof.
  destruct (args_get args "search") as [s|].
  - pose proof (like_pattern_fits_spec s) as H.
    destruct (Sql.like_pattern_fits ("%" ++ s ++ "%")).
    + split; [discriminate|]. intros (s' & E & Hlong).
      inversion E. subst s'. destruct H as [H _]. specialize (H eq_refl). lia.
    + split; [|reflexivity]. intros _. exists s. split; [reflexivity|].
      destruct (Z.le_gt_cases (Z.of_nat (String.length s) + 2) 50000) as [L|L];
        [|lia].
      destruct H as [_ H]. specialize (H L). discriminate.
  - split; [discriminate|]. intros (s & E & _). discriminate.
Qed.

(** The outcomes of the listing once its parameters have been read. *)
Lemma get_transactions_read (db : Query) (args : Args) page n by_month :
  int_arg args "page" 1 = Ok page ->
  int_arg args "per_page" 10 = Ok n ->
  month_set db args = Ok by_month ->
  get_transactions db args
  = if Sql.int64 (page_size n)
       && Sql.int64 ((page_number page - 1) * page_size n)
    then if match args_get args "search" with
            | Some s => Sql.like_pattern_fits ("%" ++ s ++ "%")
            | None => true
            end
         then Ok (Response
                    (JArr (map transaction_json
                               (slice (search_set by_month args)
                                      (page_number page) (page_size n)))))
         else match by_month with
              | [] => Ok (Response (JArr []))
              | _ :: _ => Raise OperationalError
              end
    else Raise OverflowError.
Proof.
  intros Hp Hn Hm. rewrite get_transactions_steps, Hp, Hn, Hm. reflexivity.
Qed.


(** X6.  /transactions has four outcomes: status 200 with a JSON array
    of listed rows, or one of three exceptions, each answered with
    status 500; it never answers with 404, even for a page that does
    not exist.  It raises [ValueError] exactly when [page] or
    [per_page] is not an integer literal or the month, when one is
    given, is not a month name; otherwise [OverflowError] exactly when
    the page size or the offset exceeds 2^63 - 1; otherwise
    [OperationalError] exactly when the search text has more than 49998
    bytes and the table holds a row of the month. *)
Theorem get_transactions_outcomes (db : Query) (args : Args) :
  ((exists items : list Transaction,
       get_transactions db args
       = Ok (Response (JArr (map transaction_json items))))
   \/ get_transactions db args = Raise ValueError
   \/ get_transactions db args = Raise OverflowError
   \/ get_transactions db args = Raise OperationalError)
  /\ http_status (get_transactions db args) <> 404
  /\ (get_transactions db args = Raise ValueError
      <-> (exists e, int_arg args "page" 1 = Raise e)
          \/ (exists e, int_arg args "per_page" 10 = Raise e)
          \/ (exists m e, args_get args "month" = Some m /\ m <> ""
                          /\ strptime_B_month m = Raise e))
  /\ (get_transactions db args = Raise OverflowError
      <-> exists page n by_month,
            int_arg args "page" 1 = Ok page
            /\ int_arg args "per_page" 10 = Ok n
            /\ month_set db args = Ok by_month
            /\ (Sql.max_int64 < page_size n
                \/ Sql.max_int64 < (page_number page - 1) * page_size n))
  /\ (get_transactions db args = Raise OperationalError
      <-> exists page n by_month s,
            int_arg args "page" 1 = Ok page
            /\ int_arg args "per_page" 10 = Ok n
            /\ month_set db args = Ok by_month
            /\ page_size n <= Sql.max_int64
            /\ (page_number page - 1) * page_size n <= Sql.max_int64
            /\ args_get args "search" = Some s
            /\ 50000 < Z.of_nat (String.length s) + 2
            /\ by_month <> []).
Proof.
  destruct (int_arg args "page" 1) as [page|e] eqn:Hp.
  2:{ pose proof (int_arg_raises_ValueError _ _ _ _ Hp). subst e.
      assert (E : get_transactions db args = Raise ValueError).
      { unfold get_transactions. rewrite Hp. reflexivity. }
      rewrite E. split; [right; left; reflexivity|].
      split; [discriminate|].
      split; [split; [intros _; left; exists ValueError; reflexivity
                     | reflexivity]|].
      split; (split; [discriminate|]).
      - intros (? & ? & ? & H & _). discriminate H.
      - intros (? & ? & ? & ? & H & _). discriminate H. }
  destruct (int_arg args "per_page" 10) as [n|e] eqn:Hn.
  2:{ pose proof (int_arg_raises_ValueError _ _ _ _ Hn). subst e.
      assert (E : get_transactions db args = Raise ValueError).
      { unfold get_transactions. rewrite Hp, Hn. reflexivity. }
      rewrite E. split; [right; left; reflexivity|].
      split; [discriminate|].
      split; [split; [intros _; right; left; exists ValueError; reflexivity
                     | reflexivity]|].
      split; (split; [discriminate|]).
      - intros (? & ? & ? & _ & H & _). discriminate H.
      - intros (? & ? & ? & ? & _ & H & _). discriminate H. }
  destruct (month_set db args) as [by_month|e] eqn:Hm.
  2:{ apply month_set_raises in Hm. destruct Hm as [He (m & Hg & Hne & Hr)].
      subst e.
      assert (E : get_transactions db args = Raise ValueError).
      { rewrite get_transactions_steps, Hp, Hn. cbn [bind].
        replace (month_set db args) with (@Raise Query ValueError);
          [reflexivity|].
        symmetry. apply month_set_raises. split; [reflexivity|].
        exists m. repeat split; assumption. }
      assert (Hms : month_set db args = Raise ValueError).
      { apply month_set_raises. split; [reflexivity|].
        exists m. repeat split; assumption. }
      rewrite E. split; [right; left; reflexivity|].
      split; [discriminate|].
      split; [split; [intros _; right; right; exists m, ValueError;
                      repeat split; assumption
                     | reflexivity]|].
      split; (split; [discriminate|]).
      - intros (? & ? & ? & _ & _ & H & _). congruence.
      - intros (? & ? & ? & ? & _ & _ & H & _). congruence. }
  assert (Hnot : ~ ((exists e, @Ok Z page = Raise e)
                    \/ (exists e, @Ok Z n = Raise e)
                    \/ (exists m e, args_get args "month" = Some m /\ m <> ""
                                    /\ strptime_B_month m = Raise e))).
  { intros [[e H]|[[e H]|(m & e & Hg & Hne & Hr)]]; try discriminate.
    pose proof (strptime_error _ _ Hr). subst e.
    assert (month_set db args = Raise ValueError).
    { apply month_set_raises. split; [reflexivity|].
      exists m. repeat split; assumption. }
    congruence. }
  rewrite (get_transactions_read db args page n by_month Hp Hn Hm).
  pose proof (page_overflow page n) as Hover.
  pose proof (search_too_long args) as Hlong.
  destruct (Sql.int64 (page_size n)
            && Sql.int64 ((page_number page - 1) * page_size n)).
  2:{ destruct Hover as [Hover _]. specialize (Hover eq_refl).
      split; [right; right; left; reflexivity|].
      split; [discriminate|].
      split; [split; [discriminate | intros H; elim (Hnot H)]|].
      split.
      - split; [|reflexivity]. intros _. exists page, n, by_month.
        repeat split; try reflexivity. exact Hover.
      - split; [discriminate|].
        intros (p' & n' & b' & s & E1 & E2 & _ & H1 & H2 & _).
        inversion E1. inversion E2. subst p' n'. lia. }
  assert (Hin : page_size n <= Sql.max_int64
                /\ (page_number page - 1) * page_size n <= Sql.max_int64).
  { destruct (Z.le_gt_cases (page_size n) Sql.max_int64) as [H1|H1].
    - destruct (Z.le_gt_cases ((page_number page - 1) * page_size n)
                              Sql.max_int64) as [H2|H2]; [tauto|].
      destruct Hover as [_ Hover]. discriminate (Hover (or_intror H2)).
    - destruct Hover as [_ Hover]. discriminate (Hover (or_introl H1)). }
  assert (Hno : ~ (exists page' n' by_month',
                      @Ok Z page = Ok page' /\ @Ok Z n = Ok n'
                      /\ @Ok Query by_month = Ok by_month'
                      /\ (Sql.max_int64 < page_size n'
                          \/ Sql.max_int64
                             < (page_number page' - 1) * page_size n'))).
  { intros (p' & n' & b' & E1 & E2 & _ & H).
    inversion E1. inversion E2. subst p' n'. lia. }
  destruct (match args_get args "search" with
            | Some s => Sql.like_pattern_fits ("%" ++ s ++ "%")
            | None => true
            end).
  - split; [left; eexists; reflexivity|].
    split; [discriminate|].
    split; [split; [discriminate | intros H; elim (Hnot H)]|].
    split; [split; [discriminate | intros H; elim (Hno H)]|].
    split; [discriminate|].
    intros (p' & n' & b' & s & _ & _ & _ & _ & _ & Hs & Hl & _).
    destruct Hlong as [_ Hlong].
    discriminate (Hlong (ex_intro _ s (conj Hs Hl))).
  - destruct Hlong as [Hlong _]. destruct (Hlong eq_refl) as (s & Hs & Hl).
    destruct by_month as [|t rest].
    + split; [left; exists []; reflexivity|].
      split; [discriminate|].
      split; [split; [discriminate | intros H; elim (Hnot H)]|].
      split; [split; [discriminate | intros H; elim (Hno H)]|].
      split; [discriminate|].
      intros (p' & n' & b' & s' & _ & _ & E & _ & _ & _ & _ & Hne).
      inversion E. subst b'. now elim Hne.
    + split; [right; right; right; reflexivity|].
      split; [discriminate|].
      split; [split; [discriminate | intros H; elim (Hnot H)]|].
      split; [split; [discriminate | intros H; elim (Hno H)]|].
      split; [|reflexivity]. intros _.
      exists page, n, (t :: rest), s.
      repeat split; try reflexivity; try tauto. discriminate.
Qed.


(** ** Pages *)

Lemma int_arg_head k v rest d : int_arg ((k, v) :: rest) k d = Py.int v.
Proof. unfold int_arg. now rewrite args_get_head. Qed.

Lemma int_arg_other k k' v rest d :
  k <> k' -> int_arg ((k', v) :: rest) k d = int_arg rest k d.
Proof. intros H. unfold int_arg. now rewrite args_get_other. Qed.

Lemma month_set_other db k v rest :
  k <> "month" -> month_set db ((k, v) :: rest) = month_set db rest.
Proof.
  intros Hm. unfold month_set. rewrite args_get_other by congruence.
  reflexivity.
Qed.

Lemma search_set_other rows k v rest :
  k <> "search" -> search_set rows ((k, v) :: rest) = search_set rows rest.
Proof.
  intros Hs. unfold search_set. rewrite args_get_other by congruence.
  reflexivity.
Qed.

Lemma filtered_set_other db k v rest :
  k <> "month" -> k <> "search" ->
  filtered_set db ((k, v) :: rest) = filtered_set db rest.
Proof.
  intros Hm Hs. unfold filtered_set.
  rewrite month_set_other by exact Hm.
  destruct (month_set db rest); cbn [bind]; [|reflexivity].
  now rewrite search_set_other.
Qed.

Lemma search_fits_other k v rest :
  k <> "search" -> search_fits rest -> search_fits ((k, v) :: rest).
Proof.
  unfold search_fits. intros Hk H s Hs.
  rewrite args_get_other in Hs by congruence. exact (H s Hs).
Qed.

(** The listing of a request that carries one more parameter, which is
    neither the month nor the search. *)
Lemma get_transactions_with (db : Query) (k v : string) (args : Args) :
  k <> "month" -> k <> "search" ->
  get_transactions db ((k, v) :: args)
  = (page <- int_arg ((k, v) :: args) "page" 1 ;;
     per_page <- int_arg ((k, v) :: args) "per_page" 10 ;;
     by_month <- month_set db args ;;
     if Sql.int64 (page_size per_page)
        && Sql.int64 ((page_number page - 1) * page_size per_page)
     then if match args_get args "search" with
             | Some s => Sql.like_pattern_fits ("%" ++ s ++ "%")
             | None => true
             end
          then Ok (Response
                     (JArr (map transaction_json
                                (slice (search_set by_month args)
                                       (page_number page)
                                       (page_size per_page)))))
          else match by_month with
               | [] => Ok (Response (JArr []))
               | _ :: _ => Raise OperationalError
               end
     else Raise OverflowError).
Proof.
  intros Hm Hs. rewrite get_transactions_steps.
  rewrite month_set_other by exact Hm.
  rewrite (args_get_other "search" k) by congruence.
  destruct (int_arg ((k, v) :: args) "page" 1) as [page|e]; cbn [bind];
    [|reflexivity].
  destruct (int_arg ((k, v) :: args) "per_page" 10) as [n|e]; cbn [bind];
    [|reflexivity].
  destruct (month_set db args) as [by_month|e]; cbn [bind]; [|reflexivity].
  rewrite search_set_other by congruence. reflexivity.
Qed.

Lemma get_transactions_same (db : Query) (args : Args) :
  get_transactions db args
  = (page <- int_arg args "page" 1 ;;
     per_page <- int_arg args "per_page" 10 ;;
     by_month <- month_set db args ;;
     if Sql.int64 (page_size per_page)
        && Sql.int64 ((page_number page - 1) * page_size per_page)
     then if match args_get args "search" with
             | Some s => Sql.like_pattern_fits ("%" ++ s ++ "%")
             | None => true
             end
          then Ok (Response
                     (JArr (map transaction_json
                                (slice (search_set by_month args)
                                       (page_number page)
                                       (page_size per_page)))))
          else match by_month with
               | [] => Ok (Response (JArr []))
               | _ :: _ => Raise OperationalError
               end
     else Raise OverflowError).
Proof. apply get_transactions_steps. Qed.

(** X8.  A page number below 1 is answered like page 1: the listing is
    the one of the same request with [page=1]. *)
Theorem page_below_one_is_page_one (db : Query) (args : Args) (p : Z) :
  int_arg args "page" 1 = Ok p ->
  p < 1 ->
  get_transactions db args = get_transactions db (("page", "1") :: args).
Proof.
  intros Hp Hlow.
  rewrite (get_transactions_with db "page" "1" args) by discriminate.
  rewrite get_transactions_same.
  rewrite int_arg_head, int_arg_other by discriminate.
  rewrite Hp. change (Py.int "1") with (@Ok Z 1). cbn [bind].
  replace (page_number p) with (page_number 1); [reflexivity|].
  unfold page_number. destruct (Z.ltb_spec p 1); [reflexivity | lia].
Qed.

Lemma page_below_one_is_page_one_witness :
  get_transactions sample_db [("page", "-3"); ("month", "March")]
  = get_transactions sample_db
      (("page", "1") :: [("page", "-3"); ("month", "March")]).
Proof.
  apply (page_below_one_is_page_one sample_db
           [("page", "-3"); ("month", "March")] (-3)).
  - reflexivity.
  - lia.
Defined.

(** X9.  A negative page size is answered with pages of 20 rows: the
    listing is the one of the same request with [per_page=20]. *)
Theorem negative_per_page_is_twenty (db : Query) (args : Args) (n : Z) :
  int_arg args "per_page" 10 = Ok n ->
  n < 0 ->
  get_transactions db args = get_transactions db (("per_page", "20") :: args).
Proof.
  intros Hn Hneg.
  rewrite (get_transactions_with db "per_page" "20" args) by discriminate.
  rewrite get_transactions_same.
  rewrite int_arg_head, int_arg_other by discriminate.
  rewrite Hn. change (Py.int "20") with (@Ok Z 20).
  destruct (int_arg args "page" 1) as [p|e]; cbn [bind]; [|reflexivity].
  replace (page_size n) with (page_size 20); [reflexivity|].
  unfold page_size. destruct (Z.ltb_spec n 0); [reflexivity | lia].
Qed.

Lemma negative_per_page_is_twenty_witness :
  get_transactions sample_db [("per_page", "-1")]
  = get_transactions sample_db (("per_page", "20") :: [("per_page", "-1")]).
Proof.
  apply (negative_per_page_is_twenty sample_db [("per_page", "-1")] (-1)).
  - reflexivity.
  - lia.
Defined.

Lemma firstn_add {A} (a b : nat) (l : list A) :
  firstn (a + b) l = (firstn a l ++ firstn b (skipn a l))%list.
Proof.
  revert l. induction a as [|a IH]; intros l; simpl.
  - reflexivity.
  - destruct l as [|x l]; simpl.
    + now rewrite firstn_nil.
    + now rewrite IH.
Qed.

(** The first [pages] pages of [n] rows, one after the other, are the
    first [pages * n] rows. *)
Lemma slices_concat (rows : Query) (n : Z) (pages : nat) :
  0 <= n ->
  List.concat (map (fun p => slice rows (Z.of_nat p) n) (seq 1 pages))
  = firstn (pages * Z.to_nat n) rows.
Proof.
  intros Hn. induction pages as [|pages IH].
  - reflexivity.
  - rewrite seq_S, map_app, concat_app, IH. cbn [map List.concat].
    rewrite app_nil_r. unfold slice.
    replace (Z.to_nat ((Z.of_nat (1 + pages) - 1) * n))
      with (pages * Z.to_nat n)%nat by nia.
    rewrite <- firstn_add. f_equal. lia.
Qed.

(** X10.  The pages of a listing cover the filtered result set: for a
    positive page size [n] and a search text of at most 49998 bytes, the
    answers to the requests for pages 1, 2, ..., P, one after the other,
    list every row of the filtered result set once, in order, as soon
    as P * n reaches its size (and is at most 2^63 - 1). *)
Theorem listing_pages_cover
        (db : Query) (args : Args) (rows : Query) (n : Z)
        (page_values : list string) (P : nat) :
  filtered_set db args = Ok rows ->
  search_fits args ->
  int_arg args "per_page" 10 = Ok n ->
  0 < n ->
  map Py.int page_values = map (fun p => Ok (Z.of_nat p)) (seq 1 P) ->
  count rows <= Z.of_nat P * n ->
  Z.of_nat P * n <= Sql.max_int64 ->
  exists pages : list (list Transaction),
    Forall2 (fun v items =>
               get_transactions db (("page", v) :: args)
               = Ok (Response (JArr (map transaction_json items))))
            page_values pages
    /\ List.concat pages = rows.
Proof.
  intros Hrows Hfits Hn Hpos Hvalues Hsize Hmax.
  exists (map (fun p => slice rows (Z.of_nat p) n) (seq 1 P)).
  split.
  - assert (Hge : Forall (fun p => (1 <= p <= P)%nat) (seq 1 P)).
    { apply Forall_forall. intros p Hp. apply in_seq in Hp. lia. }
    revert Hvalues Hge. generalize (seq 1 P) as ps.
    induction page_values as [|v vs IH]; intros [|p ps] Hvalues Hge;
      try discriminate.
    + constructor.
    + cbn [map] in *. inversion Hvalues as [[Hv Hvs]].
      inversion Hge as [|? ? Hp Hps]. subst.
      constructor; [|apply IH; assumption].
      rewrite get_transactions_fits
        by (apply search_fits_other; [discriminate | exact Hfits]).
      rewrite int_arg_head, int_arg_other by discriminate.
      rewrite filtered_set_other by discriminate.
      rewrite Hv, Hn, Hrows. cbn [bind]. cbv zeta.
      destruct (Z.ltb_spec (Z.of_nat p) 1); [lia|].
      destruct (Z.ltb_spec n 0); [lia|].
      replace (Sql.int64 n && Sql.int64 ((Z.of_nat p - 1) * n)) with true;
        [reflexivity|].
      symmetry. apply int64_bounds; nia.
  - rewrite slices_concat by lia.
    apply firstn_all2. unfold count in Hsize. nia.
Qed.

Lemma listing_pages_cover_witness :
  exists pages : list (list Transaction),
    Forall2 (fun v items =>
               get_transactions sample_db
                 (("page", v) :: [("month", "March"); ("per_page", "2")])
               = Ok (Response (JArr (map transaction_json items))))
            ["1"; "2"] pages
    /\ List.concat pages = [bag; shirt; ring].
Proof.
  apply (listing_pages_cover sample_db [("month", "March"); ("per_page", "2")]
           [bag; shirt; ring] 2 ["1"; "2"] 2);
    try reflexivity.
  - intros s H. vm_compute in H. discriminate H.
  - unfold count. simpl. lia.
  - vm_compute. discriminate.
Defined.

(** ** What the listing returns *)

Lemma In_firstn {A} (n : nat) (l : list A) x : In x (firstn n l) -> In x l.
Proof.
  intros H. rewrite <- (firstn_skipn n l). apply in_or_app. left. exact H.
Qed.

Lemma In_skipn {A} (n : nat) (l : list A) x : In x (skipn n l) -> In x l.
Proof.
  intros H. rewrite <- (firstn_skipn n l). apply in_or_app. right. exact H.
Qed.

Lemma slice_incl (rows : Query) (page n : Z) : incl (slice rows page n) rows.
Proof.
  intros t Ht. unfold slice in Ht.
  apply In_firstn in Ht. apply In_skipn in Ht. exact Ht.
Qed.

Lemma slice_short (rows : Query) (page n : Z) :
  0 <= n -> Z.of_nat (List.length (slice rows page n)) <= n.
Proof.
  intros Hn. unfold slice.
  match goal with
  | |- context [firstn ?a ?l] => pose proof (firstn_le_length a l)
  end.
  lia.
Qed.

Lemma month_set_In db args by_month :
  month_set db args = Ok by_month ->
  incl by_month db
  /\ (forall m, args_get args "month" = Some m -> m <> "" ->
                exists k, strptime_B_month m = Ok k
                          /\ forall t, In t by_month -> sold_in k t).
Proof.
  unfold month_set.
  destruct (args_get args "month") as [[|c m]|].
  - intros H. inversion H. subst by_month. split; [apply incl_refl|].
    intros m Hm Hne. inversion Hm. subst m. contradiction.
  - destruct (strptime_B_month (String c m)) as [k|e] eqn:Hk; cbn [bind];
      [|discriminate].
    intros H. inversion H. subst by_month. split; [apply incl_filter|].
    intros m' Hm' _. inversion Hm'. subst m'. exists k.
    split; [exact Hk|].
    intros t Ht. apply filter_In in Ht. apply in_month_spec. apply Ht.
  - intros H. inversion H. subst by_month. split; [apply incl_refl|].
    discriminate.
Qed.

Lemma search_set_In args (rows : Query) t :
  In t (search_set rows args) ->
  In t rows
  /\ (forall s, args_get args "search" = Some s -> s <> "" ->
                matches_search (pattern_of s) t = true).
Proof.
  unfold search_set, pattern_of.
  destruct (args_get args "search") as [[|c s]|].
  - intros H. split; [exact H|].
    intros s Hs Hne. inversion Hs. subst s. contradiction.
  - intros H. apply filter_In in H. destruct H as [Hin Hmatch].
    split; [exact Hin|].
    intros s' Hs' _. inversion Hs'. subst s'. exact Hmatch.
  - intros H. split; [exact H | discriminate].
Qed.

Lemma matches_search_cases p t :
  matches_search p t = true
  <-> Sql.like (title t) p = true
      \/ Sql.like (description t) p = true
      \/ Sql.like (Sql.real_to_text (price t)) p = true.
Proof.
  unfold matches_search, Sql.like_real. rewrite !orb_true_iff. tauto.
Qed.

Lemma entries_of (items : list Transaction) :
  Forall2 entry_of items (map transaction_json items).
Proof.
  induction items as [|t items IH]; constructor; [reflexivity | exact IH].
Qed.

(** X11.  A /transactions answer is an array of objects that list
    stored rows, each with the title, the description, the price, the
    category and the date (as YYYY-MM-DD) of its row.  When a non-empty
    month is given, every listed row was sold in that month; when a
    non-empty search is given, the title, the description or the text
    of the price of every listed row is LIKE the search between two
    percent signs.  A non-negative page size bounds the number of
    entries. *)
Theorem listing_entries_are_matching_rows
        (db : Query) (args : Args) (body : json) :
  get_transactions db args = Ok (Response body) ->
  exists (items : list Transaction) (entries : list json),
    body = JArr entries
    /\ Forall2 entry_of items entries
    /\ Forall (fun t =>
                 In t db
                 /\ (forall m, args_get args "month" = Some m -> m <> "" ->
                               exists k, strptime_B_month m = Ok k
                                         /\ sold_in k t)
                 /\ (forall s, args_get args "search" = Some s -> s <> "" ->
                               Sql.like (title t) (pattern_of s) = true
                               \/ Sql.like (description t) (pattern_of s) = true
                               \/ Sql.like (Sql.real_to_text (price t))
                                           (pattern_of s) = true))
              items
    /\ (forall n, int_arg args "per_page" 10 = Ok n -> 0 <= n ->
                  Z.of_nat (List.length items) <= n).
Proof.
  rewrite get_transactions_same.
  destruct (int_arg args "page" 1) as [page|e]; cbn [bind]; [|discriminate].
  destruct (int_arg args "per_page" 10) as [n|e]; cbn [bind]; [|discriminate].
  destruct (month_set db args) as [by_month|e] eqn:Hm; cbn [bind];
    [|discriminate].
  destruct (_ && _); [|discriminate].
  destruct (month_set_In db args by_month Hm) as [Hincl Hmonth].
  destruct (match args_get args "search" with
            | Some s => _
            | None => _
            end).
  - intros H. inversion H.
    exists (slice (search_set by_month args) (page_number page) (page_size n)).
    eexists. split; [reflexivity|]. split; [apply entries_of|]. split.
    + apply Forall_forall. intros t Ht. apply slice_incl in Ht.
      destruct (search_set_In args by_month t Ht) as [Hin Hsearch].
      split; [apply Hincl; exact Hin|]. split.
      * intros m Hg Hne. destruct (Hmonth m Hg Hne) as [k [Hk Hall]].
        exists k. split; [exact Hk | apply Hall; exact Hin].
      * intros s Hs Hne. apply matches_search_cases.
        exact (Hsearch s Hs Hne).
    + intros n' Hn' Hpos. inversion Hn'. subst n'.
      replace (page_size n) with n
        by (unfold page_size; destruct (Z.ltb_spec n 0); [lia | reflexivity]).
      apply slice_short. exact Hpos.
  - destruct by_month; [|discriminate].
    intros H. inversion H. exists [], [].
    split; [reflexivity|]. split; [constructor|]. split; [constructor|].
    intros n' _ Hpos. simpl. exact Hpos.
Qed.

Lemma listing_entries_are_matching_rows_witness :
  exists (items : list Transaction) (entries : list json),
    JArr [transaction_json ring] = JArr entries
    /\ Forall2 entry_of items entries
    /\ Forall (fun t =>
                 In t sample_db
                 /\ (forall m, args_get busy "month" = Some m -> m <> "" ->
                               exists k, strptime_B_month m = Ok k
                                         /\ sold_in k t)
                 /\ (forall s, args_get busy "search" = Some s -> s <> "" ->
                               Sql.like (title t) (pattern_of s) = true
                               \/ Sql.like (description t) (pattern_of s) = true
                               \/ Sql.like (Sql.real_to_text (price t))
                                           (pattern_of s) = true))
              items
    /\ (forall n, int_arg busy "per_page" 10 = Ok n -> 0 <= n ->
                  Z.of_nat (List.length items) <= n).
Proof.
  apply (listing_entries_are_matching_rows sample_db busy
           (JArr [transaction_json ring])).
  vm_compute. reflexivity.
Defined.

(** ** The search filter *)

Lemma like_percent_unfold p t :
  Sql.like_chars (37 :: p) t
  = Sql.like_chars p t
    || match t with
       | [] => false
       | _ :: t' => Sql.like_chars (37 :: p) t'
       end.
Proof. destruct t; reflexivity. Qed.

Lemma like_plain_unfold c p t :
  c <> 37 -> c <> 95 ->
  Sql.like_chars (c :: p) t
  = match t with
    | [] => false
    | d :: t' => Sql.eqb_nocase c d && Sql.like_chars p t'
    end.
Proof.
  intros H1 H2. cbn [Sql.like_chars].
  destruct (Z.eqb_spec c 37); [contradiction|].
  destruct (Z.eqb_spec c 95); [contradiction|].
  destruct t; reflexivity.
Qed.

(** A lone percent sign matches every text. *)
Lemma like_percent_all t : Sql.like_chars [37] t = true.
Proof.
  induction t as [|d t IH]; rewrite like_percent_unfold.
  - reflexivity.
  - rewrite IH. apply orb_true_r.
Qed.

(** A leading percent sign lets the rest of the pattern match any
    suffix of the text. *)
Lemma like_percent_iff p t :
  Sql.like_chars (37 :: p) t = true
  <-> exists pre post, t = (pre ++ post)%list /\ Sql.like_chars p post = true.
Proof.
  split.
  - induction t as [|d t IH]; rewrite like_percent_unfold;
      intros H; apply orb_true_iff in H; destruct H as [H|H].
    + exists [], []. split; [reflexivity | exact H].
    + discriminate.
    + exists [], (d :: t). split; [reflexivity | exact H].
    + destruct (IH H) as [pre [post [E Hp]]].
      exists (d :: pre), post. split; [now rewrite E | exact Hp].
  - intros [pre [post [E Hp]]]. subst t.
    induction pre as [|d pre IH]; rewrite like_percent_unfold.
    + cbn [app]. rewrite Hp. reflexivity.
    + cbn [app]. rewrite IH. apply orb_true_r.
Qed.

(** Plain characters at the head of a pattern match a prefix of the
    text, character by character. *)
Lemma like_plain_prefix_iff s p t :
  Forall (fun c => c <> 37 /\ c <> 95) s ->
  Sql.like_chars (s ++ p)%list t = true
  <-> exists mid rest,
        t = (mid ++ rest)%list
        /\ Forall2 (fun c d => Sql.eqb_nocase c d = true) s mid
        /\ Sql.like_chars p rest = true.
Proof.
  intros Hplain. revert t.
  induction Hplain as [|c s [Hc1 Hc2] Hs IH]; intros t.
  - simpl. split.
    + intros H. exists [], t. repeat split; [constructor | exact H].
    + intros [mid [rest [E [Hmid Hp]]]].
      inversion Hmid. subst. exact Hp.
  - change ((c :: s) ++ p)%list with (c :: (s ++ p))%list.
    rewrite (like_plain_unfold c _ t Hc1 Hc2). split.
    + destruct t as [|d t]; [discriminate|].
      intros H. apply andb_true_iff in H. destruct H as [Hcd Hrest].
      apply IH in Hrest. destruct Hrest as [mid [rest [E [Hmid Hp]]]].
      exists (d :: mid), rest. subst t. split; [reflexivity|].
      split; [constructor; assumption | exact Hp].
    + intros [mid [rest [E [Hmid Hp]]]].
      inversion Hmid as [|? d ? mid' Hcd Hmid']. subst.
      simpl. apply andb_true_iff. split; [exact Hcd|].
      apply IH. exists mid', rest. repeat split; assumption.
Qed.

(** *** ASCII texts *)

Lemma byte_inj c d : Sql.byte c = Sql.byte d -> c = d.
Proof.
  unfold Sql.byte. intros H. apply N2Z.inj in H.
  rewrite <- (ascii_N_embedding c), <- (ascii_N_embedding d), H.
  reflexivity.
Qed.

Lemma byte_lower c : Sql.byte (lower_ascii c) = Sql.to_lower (Sql.byte c).
Proof. destruct c as [[] [] [] [] [] [] [] []]; reflexivity. Qed.

Lemma ascii_char_range c : ascii_char c = true -> 0 < Sql.byte c < 128.
Proof.
  unfold ascii_char. rewrite andb_true_iff, !Z.ltb_lt. tauto.
Qed.

Lemma utf8_step_ascii c conts chars :
  ascii_char c = true ->
  Sql.utf8_step c (conts, chars)
  = ([], (Sql.byte c :: map Sql.byte conts ++ chars)%list).
Proof.
  intros H. destruct c as [[] [] [] [] [] [] [] []];
    try discriminate H; reflexivity.
Qed.

Lemma c_str_ascii l : forallb ascii_char l = true -> Sql.c_str l = l.
Proof.
  induction l as [|c l IH]; intros H; [reflexivity|].
  cbn [forallb] in H. apply andb_true_iff in H. destruct H as [Hc Hl].
  cbn [Sql.c_str]. pose proof (ascii_char_range c Hc).
  destruct (Z.eqb_spec (Sql.byte c) 0); [lia|]. now rewrite IH.
Qed.

Lemma utf8_fold_ascii l :
  forallb ascii_char l = true ->
  fold_right Sql.utf8_step ([], []) l = ([], map Sql.byte l).
Proof.
  induction l as [|c l IH]; intros H; [reflexivity|].
  cbn [forallb] in H. apply andb_true_iff in H. destruct H as [Hc Hl].
  cbn [fold_right]. rewrite IH by exact Hl.
  rewrite utf8_step_ascii by exact Hc. reflexivity.
Qed.

(** An ASCII text is read byte by byte. *)
Lemma utf8_chars_ascii l :
  forallb ascii_char l = true ->
  Sql.utf8_chars (Sql.c_str l) = map Sql.byte l.
Proof.
  intros H. rewrite (c_str_ascii l H). unfold Sql.utf8_chars.
  rewrite (utf8_fold_ascii l H). reflexivity.
Qed.

Lemma list_ascii_of_string_app a b :
  list_ascii_of_string (a ++ b)
  = (list_ascii_of_string a ++ list_ascii_of_string b)%list.
Proof. induction a as [|c a IH]; simpl; [reflexivity | now rewrite IH]. Qed.

Lemma lower_as_map s :
  list_ascii_of_string (lower s) = map lower_ascii (list_ascii_of_string s).
Proof. induction s as [|c s IH]; simpl; [reflexivity | now rewrite IH]. Qed.

Lemma list_ascii_of_string_inj a b :
  list_ascii_of_string a = list_ascii_of_string b -> a = b.
Proof.
  intros H. rewrite <- (string_of_list_ascii_of_string a),
              <- (string_of_list_ascii_of_string b). now rewrite H.
Qed.

Lemma plain_bytes l :
  forallb plain_char l = true ->
  Forall (fun c => c <> 37 /\ c <> 95) (map Sql.byte l).
Proof.
  induction l as [|c l IH]; intros H; [constructor|].
  cbn [forallb] in H. apply andb_true_iff in H. destruct H as [Hc Hl].
  cbn [map]. constructor; [|apply IH; exact Hl].
  unfold plain_char in Hc. apply negb_true_iff, orb_false_iff in Hc.
  destruct Hc as [H1 H2]. apply Ascii.eqb_neq in H1. apply Ascii.eqb_neq in H2.
  split; intros E.
  - apply H1. apply byte_inj. exact E.
  - apply H2. apply byte_inj. exact E.
Qed.

(** ASCII characters match under LIKE when they are equal up to the
    case of letters. *)
Lemma eqb_nocase_ascii c d :
  ascii_char c = true -> ascii_char d = true ->
  Sql.eqb_nocase (Sql.byte c) (Sql.byte d) = true
  <-> lower_ascii c = lower_ascii d.
Proof.
  intros Hc Hd.
  pose proof (ascii_char_range c Hc). pose proof (ascii_char_range d Hd).
  unfold Sql.eqb_nocase.
  rewrite orb_true_iff, !andb_true_iff, !Z.ltb_lt, !Z.eqb_eq.
  rewrite <- !byte_lower. split.
  - intros [E|[_ E]].
    + apply byte_inj in E. now rewrite E.
    + apply byte_inj. exact E.
  - intros E. right. split; [lia|]. now rewrite E.
Qed.

Lemma nocase_bytes s mid :
  forallb ascii_char s = true -> forallb ascii_char mid = true ->
  Forall2 (fun c d => Sql.eqb_nocase c d = true)
          (map Sql.byte s) (map Sql.byte mid)
  <-> map lower_ascii mid = map lower_ascii s.
Proof.
  revert mid. induction s as [|c s IH]; intros [|d mid] Hs Hm.
  - split; [reflexivity | constructor].
  - split; [intros H; inversion H | discriminate].
  - split; [intros H; inversion H | discriminate].
  - cbn [forallb] in Hs, Hm.
    apply andb_true_iff in Hs. apply andb_true_iff in Hm.
    destruct Hs as [Hc Hs]. destruct Hm as [Hd Hm].
    cbn [map]. split.
    + intros H. inversion H as [|? ? ? ? Hcd Hrest]. subst.
      apply (eqb_nocase_ascii c d Hc Hd) in Hcd.
      apply (IH mid Hs Hm) in Hrest. now rewrite Hcd, Hrest.
    + intros H. inversion H as [[E1 E2]].
      constructor.
      * apply (eqb_nocase_ascii c d Hc Hd). now rewrite E1.
      * apply (IH mid Hs Hm). exact E2.
Qed.

Lemma ascii_pattern s : ascii_text s -> ascii_text (pattern_of s).
Proof.
  unfold ascii_text, pattern_of. intros H.
  rewrite !list_ascii_of_string_app, !forallb_app, H. reflexivity.
Qed.

(** A plain ASCII search text between two percent signs matches
    exactly the ASCII texts that contain it. *)
Lemma like_contains text s :
  plain s -> ascii_text s -> ascii_text text ->
  Sql.like text (pattern_of s) = true <-> contains_nocase text s.
Proof.
  intros Hplain Hs Ht. unfold Sql.like, contains_nocase.
  rewrite (utf8_chars_ascii _ (ascii_pattern s Hs)).
  rewrite (utf8_chars_ascii _ Ht).
  unfold pattern_of. rewrite !list_ascii_of_string_app, !map_app.
  change (map Sql.byte (list_ascii_of_string "%")) with [37].
  change ([37] ++ map Sql.byte (list_ascii_of_string s) ++ [37])%list
    with (37 :: (map Sql.byte (list_ascii_of_string s) ++ [37]))%list.
  rewrite like_percent_iff. split.
  - intros [pre [post [E H]]].
    apply (like_plain_prefix_iff _ _ _ (plain_bytes _ Hplain)) in H.
    destruct H as [mid [rest [E' [Hmid _]]]]. subst post.
    apply map_eq_app in E. destruct E as (tpre & tpost & Et & Epre & Epost).
    apply map_eq_app in Epost.
    destruct Epost as (tmid & trest & Et' & Emid & Erest). subst.
    unfold ascii_text in Ht. rewrite Et in Ht.
    rewrite !forallb_app in Ht. apply andb_true_iff in Ht.
    destruct Ht as [_ Ht]. apply andb_true_iff in Ht. destruct Ht as [Hm _].
    apply (nocase_bytes _ _ Hs Hm) in Hmid.
    exists (string_of_list_ascii tpre), (string_of_list_ascii tmid),
      (string_of_list_ascii trest).
    split.
    + apply list_ascii_of_string_inj.
      rewrite !list_ascii_of_string_app,
        !list_ascii_of_string_of_list_ascii. exact Et.
    + apply list_ascii_of_string_inj.
      rewrite !lower_as_map, list_ascii_of_string_of_list_ascii. exact Hmid.
  - intros [pre [mid [post [E Hmid]]]]. subst text.
    unfold ascii_text in Ht. rewrite !list_ascii_of_string_app in Ht.
    rewrite !forallb_app in Ht. apply andb_true_iff in Ht.
    destruct Ht as [_ Ht]. apply andb_true_iff in Ht. destruct Ht as [Hm _].
    exists (map Sql.byte (list_ascii_of_string pre)),
      (map Sql.byte (list_ascii_of_string mid)
       ++ map Sql.byte (list_ascii_of_string post))%list.
    split.
    + rewrite !list_ascii_of_string_app, !map_app. reflexivity.
    + apply (like_plain_prefix_iff _ _ _ (plain_bytes _ Hplain)).
      exists (map Sql.byte (list_ascii_of_string mid)),
        (map Sql.byte (list_ascii_of_string post)).
      split; [reflexivity|]. split; [|apply like_percent_all].
      apply (nocase_bytes _ _ Hs Hm).
      rewrite <- !lower_as_map. now rewrite Hmid.
Qed.

(** X12.  For an ASCII search text without the characters percent and
    underscore, a row whose title, description and price text are ASCII
    passes the search filter exactly when its title, its description or
    the text of its price contains the search text, ASCII letters
    compared without regard to case. *)
Theorem search_matches_substrings (s : string) (t : Transaction) :
  plain s ->
  ascii_text s ->
  ascii_text (title t) ->
  ascii_text (description t) ->
  ascii_text (Sql.real_to_text (price t)) ->
  matches_search (pattern_of s) t = true
  <-> contains_nocase (title t) s
      \/ contains_nocase (description t) s
      \/ contains_nocase (Sql.real_to_text (price t)) s.
Proof.
  intros Hplain Hs Ht Hd Hp. unfold matches_search, Sql.like_real.
  rewrite !orb_true_iff.
  rewrite (like_contains _ s Hplain Hs Ht), (like_contains _ s Hplain Hs Hd),
    (like_contains _ s Hplain Hs Hp).
  tauto.
Qed.

Lemma search_matches_substrings_witness :
  matches_search (pattern_of "BAG") ring = true
  <-> contains_nocase (title ring) "BAG"
      \/ contains_nocase (description ring) "BAG"
      \/ contains_nocase (Sql.real_to_text (price ring)) "BAG".
Proof.
  apply (search_matches_substrings "BAG" ring); vm_compute; reflexivity.
Defined.

(** The price is searched as text, in the form that SQLite gives it:
    the search "9.0" finds the ring, priced 999, and a price of
    100000000000000.5 is searched as 100000000000001.0. *)
Example search_price_text :
  Sql.real_to_text (price ring) = "999.0"
  /\ matches_search (pattern_of "9.0") ring = true
  /\ Sql.real_to_text (1000000000000005 # 10) = "100000000000001.0".
Proof. repeat split; vm_compute; reflexivity. Qed.

(** X13.  The search text is not escaped: a percent sign in it is a
    wildcard.  The search [%] matches every row, so the listing is the
    one of the request without a search. *)
Theorem percent_search_matches_all (db : Query) (rest : Args) :
  (forall t, matches_search ("%" ++ "%" ++ "%") t = true)
  /\ (args_get rest "search" = None ->
      get_transactions db (("search", "%") :: rest) = get_transactions db rest).
Proof.
  assert (Hall : forall t, matches_search ("%" ++ "%" ++ "%") t = true).
  { intros t. unfold matches_search, Sql.like.
    change (Sql.utf8_chars
              (Sql.c_str (list_ascii_of_string ("%" ++ "%" ++ "%"))))
      with [37; 37; 37].
    assert (H : forall x, Sql.like_chars [37; 37; 37] x = true).
    { intros x. apply like_percent_iff. exists [], x. split; [reflexivity|].
      apply like_percent_iff. exists [], x. split; [reflexivity|].
      apply like_percent_all. }
    rewrite H. reflexivity. }
  split; [exact Hall|].
  intros Hnone. rewrite !get_transactions_steps.
  rewrite !int_arg_other by discriminate.
  rewrite month_set_other by discriminate.
  rewrite args_get_head, Hnone.
  change (Sql.like_pattern_fits ("%" ++ "%" ++ "%")) with true.
  destruct (int_arg rest "page" 1) as [page|e]; cbn [bind]; [|reflexivity].
  destruct (int_arg rest "per_page" 10) as [n|e]; cbn [bind]; [|reflexivity].
  destruct (month_set db rest) as [by_month|e]; cbn [bind]; [|reflexivity].
  replace (search_set by_month (("search", "%") :: rest))
    with (search_set by_month rest); [reflexivity|].
  unfold search_set. rewrite args_get_head, Hnone.
  symmetry. apply forallb_filter_id. apply forallb_forall.
  intros t _. apply Hall.
Qed.

(** ** Month names *)

Lemma truthy_lower m : truthy (lower m) = truthy m.
Proof. destruct m; reflexivity. Qed.

Lemma strptime_by_lower m1 m2 :
  lower m1 = lower m2 -> strptime_B_month m1 = strptime_B_month m2.
Proof.
  intros H. unfold strptime_B_month.
  rewrite <- (truthy_lower m1), <- (truthy_lower m2), H. reflexivity.
Qed.

Lemma truthy_by_lower m1 m2 : lower m1 = lower m2 -> truthy m1 = truthy m2.
Proof.
  intros H. rewrite <- (truthy_lower m1), <- (truthy_lower m2), H.
  reflexivity.
Qed.

Lemma index_from_nth x l i k :
  index_from x l i = Some k ->
  nth_error l (Z.to_nat (k - i)) = Some x.
Proof.
  revert i. induction l as [|y l IH]; intros i; simpl index_from.
  - discriminate.
  - destruct (String.eqb_spec x y) as [E|_].
    + intros H. inversion H. subst. now rewrite Z.sub_diag.
    + intros H. pose proof (index_from_range _ _ _ _ H) as Hr.
      apply IH in H.
      replace (Z.to_nat (k - i)) with (S (Z.to_nat (k - (i + 1)))) by lia.
      exact H.
Qed.

(** X14.  A month value is recognised exactly when, lower-cased, it is
    one of the twelve English month names, and it resolves to the number
    of that month, from 1 for january to 12 for december. *)
Theorem month_names_resolve (m : string) (k : Z) :
  strptime_B_month m = Ok k
  <-> 1 <= k <= 12
      /\ nth_error [ "january"; "february"; "march"; "april"; "may"; "june";
                     "july"; "august"; "september"; "october"; "november";
                     "december" ] (Z.to_nat (k - 1))
         = Some (lower m).
Proof.
  split.
  - intros H. split; [exact (valid_month_range m k H)|].
    pose proof (valid_month_range m k H) as Hr.
    unfold strptime_B_month in H.
    destruct (truthy m); [|discriminate].
    destruct (index_from (lower m) f_month 0) as [i|] eqn:E; [|discriminate].
    inversion H. subst i. apply index_from_nth in E.
    rewrite Z.sub_0_r in E. unfold f_month in E.
    replace (Z.to_nat k) with (S (Z.to_nat (k - 1))) in E by lia.
    exact E.
  - intros [Hr Hnth]. unfold strptime_B_month.
    assert (Hk : k = 1 \/ k = 2 \/ k = 3 \/ k = 4 \/ k = 5 \/ k = 6 \/ k = 7
                 \/ k = 8 \/ k = 9 \/ k = 10 \/ k = 11 \/ k = 12) by lia.
    remember (lower m) as L eqn:HL.
    destruct Hk as [Hk|[Hk|[Hk|[Hk|[Hk|[Hk|[Hk|[Hk|[Hk|[Hk|[Hk|Hk]]]]]]]]]]];
      subst k; simpl in Hnth; inversion Hnth as [Hl];
      rewrite <- Hl in HL;
      (destruct m as [|c m]; [discriminate HL|]); reflexivity.
Qed.

(** X15.  Month names are read without regard to case: two requests
    that differ only in the case of the letters of [month] receive the
    same answer from each of the five endpoints. *)
Theorem month_case_is_ignored (m1 m2 : string) (db : Query) (rest : Args) :
  lower m1 = lower m2 ->
  Forall (fun view =>
            view db (("month", m1) :: rest) = view db (("month", m2) :: rest))
         all_views.
Proof.
  intros H.
  pose proof (strptime_by_lower m1 m2 H) as Hs.
  pose proof (truthy_by_lower m1 m2 H) as Ht.
  assert (Htr : get_transactions db (("month", m1) :: rest)
                = get_transactions db (("month", m2) :: rest)).
  { unfold get_transactions, args_get_default, int_arg.
    rewrite !args_get_head, !args_get_other by discriminate.
    rewrite Ht, Hs. reflexivity. }
  assert (Hst : get_statistics db (("month", m1) :: rest)
                = get_statistics db (("month", m2) :: rest)).
  { unfold get_statistics. rewrite !args_get_head. cbn [truthy_opt the_str].
    rewrite Ht, Hs. reflexivity. }
  assert (Hba : get_bar_chart db (("month", m1) :: rest)
                = get_bar_chart db (("month", m2) :: rest)).
  { unfold get_bar_chart. rewrite !args_get_head. cbn [truthy_opt the_str].
    rewrite Ht, Hs. reflexivity. }
  assert (Hpi : get_pie_chart db (("month", m1) :: rest)
                = get_pie_chart db (("month", m2) :: rest)).
  { unfold get_pie_chart. rewrite !args_get_head. cbn [truthy_opt the_str].
    rewrite Ht, Hs. reflexivity. }
  unfold all_views. repeat constructor; try assumption.
  unfold get_combined_data. rewrite !args_get_head. cbn [truthy_opt].
  rewrite Ht, Htr, Hst, Hba, Hpi. reflexivity.
Qed.

Lemma month_case_is_ignored_witness :
  Forall (fun view =>
            view sample_db (("month", "MARCH") :: [("page", "1")])
            = view sample_db (("month", "march") :: [("page", "1")]))
         all_views.
Proof.
  apply (month_case_is_ignored "MARCH" "march" sample_db [("page", "1")]).
  reflexivity.
Defined.

(** ** What the aggregate views read of a row *)

Lemma filter_by_key (c : Transaction -> bool) (db db' : Query) :
  by_key c ->
  map month_key db = map month_key db' ->
  map month_key (filter c db) = map month_key (filter c db').
Proof.
  intros Hc. revert db'.
  induction db as [|t db IH]; intros [|t' db'] H; try discriminate.
  - reflexivity.
  - cbn [map] in H.
    assert (Ht : month_key t = month_key t') by congruence.
    assert (Hrest : map month_key db = map month_key db') by congruence.
    cbn [filter].
    rewrite (Hc t t' Ht). destruct (c t'); cbn [map].
    + rewrite Ht. f_equal. apply IH. exact Hrest.
    + apply IH. exact Hrest.
Qed.

Lemma in_month_by_key k : by_key (in_month k).
Proof.
  intros t t' H. unfold month_key in H. inversion H as [[Hm Hp Hc]].
  unfold in_month, Sql.extract_month. now rewrite Hm.
Qed.

Lemma price_ge_by_key lo : by_key (price_ge lo).
Proof.
  intros t t' H. unfold month_key in H. inversion H as [[Hm Hp Hc]].
  unfold price_ge. now rewrite Hp.
Qed.

Lemma price_lt_by_key b : by_key (price_lt b).
Proof.
  intros t t' H. unfold month_key in H. inversion H as [[Hm Hp Hc]].
  unfold price_lt. now rewrite Hp.
Qed.

Lemma price_is_zero_by_key : by_key price_is_zero.
Proof.
  intros t t' H. unfold month_key in H. inversion H as [[Hm Hp Hc]].
  unfold price_is_zero. now rewrite Hp.
Qed.

Lemma all_by_key criteria :
  Forall by_key criteria -> by_key (fun t => forallb (fun c => c t) criteria).
Proof.
  intros H t t' E. induction H as [|c cs Hc _ IH]; simpl.
  - reflexivity.
  - now rewrite (Hc t t' E), IH.
Qed.

Lemma filter_all_by_key criteria db db' :
  Forall by_key criteria ->
  map month_key db = map month_key db' ->
  map month_key (filter_all criteria db)
  = map month_key (filter_all criteria db').
Proof.
  intros Hc H. unfold filter_all.
  apply filter_by_key; [apply all_by_key; exact Hc | exact H].
Qed.

Lemma count_by_key q q' :
  map month_key q = map month_key q' -> count q = count q'.
Proof.
  intros H. unfold count. f_equal.
  rewrite <- (length_map month_key q), <- (length_map month_key q').
  now rewrite H.
Qed.

Lemma func_sum_by_key q q' :
  map month_key q = map month_key q' -> func_sum price q = func_sum price q'.
Proof.
  intros H. unfold func_sum. f_equal.
  change price with (fun t => snd (fst (month_key t))).
  rewrite <- (map_map month_key (fun k => snd (fst k)) q),
          <- (map_map month_key (fun k => snd (fst k)) q').
  now rewrite H.
Qed.

Lemma group_by_count_as_map col q :
  group_by_count col q = fold_left (fun groups k => bump k groups) (map col q) [].
Proof.
  unfold group_by_count. generalize (@nil (string * Z)) as groups.
  induction q as [|t q IH]; intros groups; simpl; [reflexivity | apply IH].
Qed.

Lemma group_by_count_by_key q q' :
  map month_key q = map month_key q' ->
  group_by_count category q = group_by_count category q'.
Proof.
  intros H. rewrite !group_by_count_as_map. f_equal.
  change category with (fun t => snd (month_key t)).
  rewrite <- (map_map month_key snd q), <- (map_map month_key snd q').
  now rewrite H.
Qed.

(** X16.  /statistics, /bar_chart and /pie_chart read a row through the
    month of its date, its price and its category only: two tables whose
    rows agree on these three, row by row, receive the same answers.  In
    particular the year and the day of a sale do not matter: the month
    filter spans all years. *)
Theorem charts_ignore_year_and_day (db db' : Query) (args : Args) :
  map month_key db = map month_key db' ->
  Forall (fun view => view db args = view db' args) chart_views.
Proof.
  intros H. unfold chart_views. repeat constructor.
  - unfold get_statistics.
    destruct (negb (truthy_opt (args_get args "month"))); [reflexivity|].
    destruct (strptime_B_month (the_str (args_get args "month"))) as [k|e];
      cbn [bind]; [|reflexivity].
    assert (H1 : map month_key (filter_all [in_month k] db)
                 = map month_key (filter_all [in_month k] db')).
    { apply filter_all_by_key; [|exact H].
      repeat constructor. apply in_month_by_key. }
    assert (H2 : map month_key (filter_all [in_month k; price_is_zero] db)
                 = map month_key (filter_all [in_month k; price_is_zero] db')).
    { apply filter_all_by_key; [|exact H].
      repeat constructor; [apply in_month_by_key | apply price_is_zero_by_key]. }
    rewrite (func_sum_by_key _ _ H1), (count_by_key _ _ H1),
      (count_by_key _ _ H2). reflexivity.
  - unfold get_bar_chart.
    destruct (negb (truthy_opt (args_get args "month"))); [reflexivity|].
    destruct (strptime_B_month (the_str (args_get args "month"))) as [k|e];
      cbn [bind]; [|reflexivity].
    do 3 f_equal. apply map_ext. intros [start end_]. unfold bar_entry.
    do 5 f_equal. apply count_by_key. apply filter_all_by_key; [|exact H].
    repeat constructor;
      [apply in_month_by_key | apply price_ge_by_key | apply price_lt_by_key].
  - unfold get_pie_chart.
    destruct (negb (truthy_opt (args_get args "month"))); [reflexivity|].
    destruct (strptime_B_month (the_str (args_get args "month"))) as [k|e];
      cbn [bind]; [|reflexivity].
    do 4 f_equal. apply group_by_count_by_key.
    apply filter_all_by_key; [|exact H].
    repeat constructor. apply in_month_by_key.
Qed.

Lemma charts_ignore_year_and_day_witness :
  Forall (fun view =>
            view [bag; shirt] march
            = view [ mkTransaction 9 "Bag" "a leather bag" 0 "men" (mkDate 1999 3 31);
                     mkTransaction 7 "Tie" "silk" 150 "men" (mkDate 2030 3 1) ]
                   march)
         chart_views.
Proof.
  apply (charts_ignore_year_and_day [bag; shirt]
           [ mkTransaction 9 "Bag" "a leather bag" 0 "men" (mkDate 1999 3 31);
             mkTransaction 7 "Tie" "silk" 150 "men" (mkDate 2030 3 1) ]
           march).
  reflexivity.
Defined.

(** ** Categories of the pie chart *)

Lemma key_total_In c groups :
  0 < key_total c groups -> exists n, In (c, n) groups.
Proof.
  unfold key_total, sumZ.
  induction groups as [|[k n] rest IH]; cbn [filter fst].
  - simpl. lia.
  - destruct (String.eqb_spec k c) as [E|_].
    + intros _. subst k. exists n. left. reflexivity.
    + intros H. destruct (IH H) as [n' Hn']. exists n'. right. exact Hn'.
Qed.

Lemma count_filter_positive (f : Transaction -> bool) q t :
  In t q -> f t = true -> 0 < count (filter f q).
Proof.
  intros Hin Hf.
  assert (Hin' : In t (filter f q)) by (apply filter_In; split; assumption).
  unfold count. destruct (filter f q); [destruct Hin'|].
  simpl List.length. lia.
Qed.

(** X17.  /pie_chart lists every category that has a transaction in the
    month: for each stored row of the month, the answer has an entry
    for the category of that row. *)
Theorem pie_chart_lists_every_category
        (db : Query) (args : Args) (m : string) (k : Z) (t : Transaction) :
  args_get args "month" = Some m ->
  strptime_B_month m = Ok k ->
  In t db ->
  sold_in k t ->
  exists (entries : list json) (n : Z),
    get_pie_chart db args = Ok (Response (JArr entries))
    /\ In (JObj [ ("category", JStr (category t)); ("count", JInt n) ]) entries.
Proof.
  intros Hm Hk Hin Hsold.
  rewrite (get_pie_chart_valid db args m k Hm Hk).
  set (rows := filter (in_month k) db).
  assert (Hpos : 0 < key_total (category t) (group_by_count category rows)).
  { change (group_by_count category rows) with (grouped category rows []).
    rewrite (grouped_key_total category (category t) rows []).
    change (key_total (category t) []) with 0. rewrite Z.add_0_l.
    apply (count_filter_positive _ rows t).
    - apply filter_In. split; [exact Hin | apply in_month_spec; exact Hsold].
    - apply String.eqb_refl. }
  destruct (key_total_In _ _ Hpos) as [n Hn].
  eexists _, n. split; [reflexivity|].
  apply (in_map pie_entry) in Hn. exact Hn.
Qed.

Lemma pie_chart_lists_every_category_witness :
  exists (entries : list json) (n : Z),
    get_pie_chart sample_db march = Ok (Response (JArr entries))
    /\ In (JObj [ ("category", JStr (category ring)); ("count", JInt n) ])
          entries.
Proof.
  apply (pie_chart_lists_every_category sample_db march "March" 3 ring).
  - reflexivity.
  - reflexivity.
  - simpl. tauto.
  - reflexivity.
Defined.
